(** * Workday event collector: incremental fetch, normalisation and
      boundary deduplication

    A shallow embedding of
    [Packs/Workday/Integrations/WorkdayEventCollector/WorkdayEventCollector.py]
    together with the part of Python's [datetime] library the collector
    calls, and the properties of the fetch cursor proved over it. *)

From Stdlib Require Import ZArith Ascii String List Lia Sorting.Sorted.
From stdpp Require Import gmap strings list lexico sorting.
From Equations Require Import Equations.

Local Open Scope Z_scope.
#[local] Set Warnings "-clear-no-such-hyp".

(** ** Exceptions and fallible computations *)

(** The exceptions the collector can meet: [ValueError] and [TypeError] come
    from [datetime.strptime] and [list.remove], [DemistoException] from the
    HTTP client. *)
Inductive exn : Type :=
| ValueError
| TypeError
| DemistoException (msg : string).

Inductive result (A : Type) : Type :=
| Ok (a : A)
| Raise (e : exn).
Arguments Ok {A} a.
Arguments Raise {A} e.

Global Instance result_ret : MRet result := λ A a, Ok a.
Global Instance result_bind : MBind result := λ A B f m,
  match m with
  | Ok a => f a
  | Raise e => Raise e
  end.

Definition raises {A} (m : result A) : Prop :=
  match m with
  | Ok _ => False
  | Raise _ => True
  end.

(** ** The fragment of Python's [datetime] used by the collector *)

Module Datetime.

(** A naive [datetime] value. *)
Record datetime : Type := mkDatetime {
  year : Z;
  month : Z;
  day : Z;
  hour : Z;
  minute : Z;
  second : Z;
  microsecond : Z
}.

(** [datetime] objects compare field by field, most significant first. *)
Definition fields (d : datetime) : Z * (Z * (Z * (Z * (Z * (Z * Z))))) :=
  (year d, (month d, (day d, (hour d, (minute d, (second d, microsecond d)))))).

Definition before (a b : datetime) : Prop := lexico (fields a) (fields b).

Global Instance before_dec (a b : datetime) : Decision (before a b).
Proof. unfold before. apply _. Defined.

(** [a > b] *)
Definition gt (a b : datetime) : bool := bool_decide (before b a).

(** [a <= b] *)
Definition le (a b : datetime) : Prop := ¬ before b a.

Global Instance le_dec (a b : datetime) : Decision (le a b).
Proof. unfold le. apply _. Defined.

Definition is_leap (y : Z) : bool :=
  (y mod 4 =? 0) && (negb (y mod 100 =? 0) || (y mod 400 =? 0)).

Definition days_in_month (y m : Z) : Z :=
  if m =? 2 then (if is_leap y then 29 else 28)
  else if (m =? 4) || (m =? 6) || (m =? 9) || (m =? 11) then 30
  else 31.

(** The range checks of the [datetime] constructor. *)
Definition valid (d : datetime) : bool :=
  (1 <=? year d) && (year d <=? 9999) &&
  (1 <=? month d) && (month d <=? 12) &&
  (1 <=? day d) && (day d <=? days_in_month (year d) (month d)) &&
  (0 <=? hour d) && (hour d <=? 23) &&
  (0 <=? minute d) && (minute d <=? 59) &&
  (0 <=? second d) && (second d <=? 59) &&
  (0 <=? microsecond d) && (microsecond d <=? 999999).

(** [dt.replace(microsecond=us)] returns a new object. *)
Definition replace_microsecond (d : datetime) (us : Z) : datetime :=
  mkDatetime (year d) (month d) (day d) (hour d) (minute d) (second d) us.

(** *** Format strings *)

Inductive directive : Type :=
| Dir_Y | Dir_m | Dir_d | Dir_H | Dir_M | Dir_S | Dir_f
| Lit (c : ascii).

Definition directive_of (c : ascii) : option directive :=
  if Ascii.eqb c "Y" then Some Dir_Y
  else if Ascii.eqb c "m" then Some Dir_m
  else if Ascii.eqb c "d" then Some Dir_d
  else if Ascii.eqb c "H" then Some Dir_H
  else if Ascii.eqb c "M" then Some Dir_M
  else if Ascii.eqb c "S" then Some Dir_S
  else if Ascii.eqb c "f" then Some Dir_f
  else None.

(** Splits a format into directives and literal characters; a directive
    outside the ones above is not supported. *)
Fixpoint compile_format (fmt : list ascii) : option (list directive) :=
  match fmt with
  | [] => Some []
  | c :: rest =>
    if Ascii.eqb c "%" then
      match rest with
      | [] => None
      | k :: rest' =>
        d ← directive_of k; ds ← compile_format rest'; Some (d :: ds)
      end
    else ds ← compile_format rest; Some (Lit c :: ds)
  end.

(** *** Character classes of the regular expressions of [_strptime]

    [strptime] turns the format into a regular expression, one group per
    directive, and matches it against the start of the data. Texts are
    sequences of 8-bit characters here; the formats of the collector hold no
    white space, which the library would turn into [\s+]. *)

Definition code (c : ascii) : Z := Z.of_nat (nat_of_ascii c).

Definition range (lo hi c : ascii) : bool :=
  (code lo <=? code c) && (code c <=? code hi).

Definition digit : ascii → bool := range "0" "9".

Definition lower (c : ascii) : ascii :=
  if range "A" "Z" c then ascii_of_nat (nat_of_ascii c + 32) else c.

(** The pattern is compiled with [IGNORECASE]. *)
Definition letter (x c : ascii) : bool := Ascii.eqb (lower x) (lower c).

Definition char (x c : ascii) : bool := Ascii.eqb x c.

(** The alternatives of each directive, in the order the regular expression
    lists them; an alternative is a sequence of character classes. *)
Definition alternatives (d : directive) : list (list (ascii → bool)) :=
  match d with
  | Dir_Y => [[digit; digit; digit; digit]]
  | Dir_m => [[char "1"; range "0" "2"]; [char "0"; range "1" "9"];
              [range "1" "9"]]
  | Dir_d => [[char "3"; range "0" "1"]; [range "1" "2"; digit];
              [char "0"; range "1" "9"]; [range "1" "9"];
              [char " "; range "1" "9"]]
  | Dir_H => [[char "2"; range "0" "3"]; [range "0" "1"; digit]; [digit]]
  | Dir_M => [[range "0" "5"; digit]; [digit]]
  | Dir_S => [[char "6"; range "0" "1"]; [range "0" "5"; digit]; [digit]]
  | Dir_f => [[digit; digit; digit; digit; digit; digit];
              [digit; digit; digit; digit; digit];
              [digit; digit; digit; digit];
              [digit; digit; digit];
              [digit; digit];
              [digit]]
  | Lit c => [[letter c]]
  end.

(** Matches a sequence of classes at the head of [s]: the matched text and
    the rest. *)
Fixpoint match_classes (cls : list (ascii → bool)) (s : list ascii)
  : option (list ascii * list ascii) :=
  match cls with
  | [] => Some ([], s)
  | p :: cls' =>
    match s with
    | [] => None
    | c :: s' =>
      if p c then '(txt, rest) ← match_classes cls' s'; Some (c :: txt, rest)
      else None
    end
  end.

Fixpoint first_some {A B} (f : A → option B) (l : list A) : option B :=
  match l with
  | [] => None
  | a :: l' => match f a with Some b => Some b | None => first_some f l' end
  end.

(** The backtracking match of the compiled pattern at the start of [s]: the
    text of each group and what is left of [s]. *)
Fixpoint regex_match (ds : list directive) (s : list ascii)
  : option (list (list ascii) * list ascii) :=
  match ds with
  | [] => Some ([], s)
  | d :: ds' =>
    first_some (λ alt,
      '(txt, rest) ← match_classes alt s;
      '(groups, fin) ← regex_match ds' rest;
      Some (txt :: groups, fin)) (alternatives d)
  end.

(** [int(text)]; white space is skipped as [int] does. *)
Definition int_of (txt : list ascii) : Z :=
  fold_left (λ acc c, if digit c then 10 * acc + (code c - 48) else acc) txt 0.

(** The fraction is padded with zeros on the right to six digits. *)
Definition fraction_of (txt : list ascii) : Z :=
  int_of (take 6 (txt ++ replicate 6 "0"%char)).

Definition set_field (d : directive) (txt : list ascii) (dt : datetime)
  : datetime :=
  match d with
  | Dir_Y => mkDatetime (int_of txt) (month dt) (day dt) (hour dt) (minute dt)
               (second dt) (microsecond dt)
  | Dir_m => mkDatetime (year dt) (int_of txt) (day dt) (hour dt) (minute dt)
               (second dt) (microsecond dt)
  | Dir_d => mkDatetime (year dt) (month dt) (int_of txt) (hour dt) (minute dt)
               (second dt) (microsecond dt)
  | Dir_H => mkDatetime (year dt) (month dt) (day dt) (int_of txt) (minute dt)
               (second dt) (microsecond dt)
  | Dir_M => mkDatetime (year dt) (month dt) (day dt) (hour dt) (int_of txt)
               (second dt) (microsecond dt)
  | Dir_S => mkDatetime (year dt) (month dt) (day dt) (hour dt) (minute dt)
               (int_of txt) (microsecond dt)
  | Dir_f => mkDatetime (year dt) (month dt) (day dt) (hour dt) (minute dt)
               (second dt) (fraction_of txt)
  | Lit _ => dt
  end.

Fixpoint set_fields (ds : list directive) (groups : list (list ascii))
  (dt : datetime) : datetime :=
  match ds, groups with
  | d :: ds', txt :: groups' => set_fields ds' groups' (set_field d txt dt)
  | _, _ => dt
  end.

(** Fields a format does not mention default to 1900-01-01T00:00:00. *)
Definition defaults : datetime := mkDatetime 1900 1 1 0 0 0 0.

(** [datetime.strptime(data_string, format)]: the pattern must match at the
    start of the data, nothing may remain after the match, and the fields
    must pass the constructor's range checks; each failure is a
    [ValueError]. *)
Definition strptime (data_string format : string) : result datetime :=
  match compile_format (list_ascii_of_string format) with
  | None => Raise ValueError
  | Some ds =>
    match regex_match ds (list_ascii_of_string data_string) with
    | None => Raise ValueError
    | Some (groups, rest) =>
      match rest with
      | _ :: _ => Raise ValueError
      | [] =>
        let dt := set_fields ds groups defaults in
        if valid dt then Ok dt else Raise ValueError
      end
    end
  end.

(** *** Printing *)

Definition digit_char (n : Z) : ascii := ascii_of_nat (Z.to_nat (48 + n mod 10)).

(** The [width] low decimal digits of [n], most significant first. *)
Fixpoint zero_padded (width : nat) (n : Z) : list ascii :=
  match width with
  | O => []
  | S w => zero_padded w (n / 10) ++ [digit_char n]
  end.

(** The C library decides how [%Y] prints a year below 1000: four digits
    padded with zeros, or the bare number (glibc). *)
Class Platform : Type := { normalize_century : bool }.

Definition glibc : Platform := {| normalize_century := false |}.

Definition year_text `{Platform} (y : Z) : list ascii :=
  if normalize_century then zero_padded 4 y
  else if y <? 10 then zero_padded 1 y
  else if y <? 100 then zero_padded 2 y
  else if y <? 1000 then zero_padded 3 y
  else zero_padded 4 y.

Definition render `{Platform} (d : directive) (dt : datetime) : list ascii :=
  match d with
  | Dir_Y => year_text (year dt)
  | Dir_m => zero_padded 2 (month dt)
  | Dir_d => zero_padded 2 (day dt)
  | Dir_H => zero_padded 2 (hour dt)
  | Dir_M => zero_padded 2 (minute dt)
  | Dir_S => zero_padded 2 (second dt)
  | Dir_f => zero_padded 6 (microsecond dt)
  | Lit c => [c]
  end.

(** [datetime.strftime(dt, format)] *)
Definition strftime `{Platform} (dt : datetime) (format : string)
  : result string :=
  match compile_format (list_ascii_of_string format) with
  | None => Raise ValueError
  | Some ds => Ok (string_of_list_ascii (concat (map (λ d, render d dt) ds)))
  end.

(** *** Predicates on texts and formats *)

(** [txt] is matched by the sequence of classes [cls]. *)
Definition in_classes (cls : list (ascii → bool)) (txt : list ascii) : Prop :=
  Forall2 (λ p c, p c = true) cls txt.

(** [txt] is matched by one of the alternatives of [d]. *)
Definition in_directive (d : directive) (txt : list ascii) : Prop :=
  ∃ alt, alt ∈ alternatives d ∧ in_classes alt txt.

(** A fraction of a second in the text: a point and a digit after it. *)
Fixpoint fraction_in (s : list ascii) : bool :=
  match s with
  | [] => false
  | x :: rest =>
    (Ascii.eqb x "." && match rest with c :: _ => digit c | [] => false end)
    || fraction_in rest
  end.

Definition has_fraction (data : string) : bool :=
  fraction_in (list_ascii_of_string data).

(** No class of the directive accepts a point. *)
Definition rejects_point (d : directive) : bool :=
  forallb (forallb (λ p : ascii → bool, negb (p "."%char))) (alternatives d).

(** The values each two-digit field may take in a valid [datetime]. *)
Definition field_ok (d : directive) (v : Z) : bool :=
  match d with
  | Dir_m => (1 <=? v) && (v <=? 12)
  | Dir_d => (1 <=? v) && (v <=? 31)
  | Dir_H => (0 <=? v) && (v <=? 23)
  | Dir_M | Dir_S => (0 <=? v) && (v <=? 59)
  | _ => false
  end.

(** What the whole-second format prints. *)
Definition seconds_text `{Platform} (dt : datetime) : list ascii :=
  year_text (year dt) ++ "-"%char ::
  zero_padded 2 (month dt) ++ "-"%char ::
  zero_padded 2 (day dt) ++ "T"%char ::
  zero_padded 2 (hour dt) ++ ":"%char ::
  zero_padded 2 (minute dt) ++ ":"%char ::
  zero_padded 2 (second dt) ++ ["Z"%char].

End Datetime.

(** ** The collector *)

Module WorkdayEventCollector.
Import Datetime.

Definition MAX_EVENTS_PER_REQUEST : Z := 100.
Definition VENDOR : string := "Workday".
Definition PRODUCT : string := "Workday".
Definition DATE_FORMAT : string := "%Y-%m-%dT%H:%M:%SZ".

(** An activity logging is the JSON object the vendor returned: a dictionary
    from field names to values. *)
Abbreviation logging := (gmap string string).

(** [logging.get('taskId')], [None] when the key is absent. *)
Abbreviation logging_id := (option string).

(** The last-run object kept by the host between invocations; a key that is
    absent is [None]. *)
Record last_run : Type := mkLastRun {
  last_fetch_time : option string;
  last_fetched_loggings : option (list logging_id)
}.

(** [list.remove(x)]: deletes the first element equal to [x], and raises
    [ValueError] when there is none. *)
Fixpoint list_remove (x : logging) (l : list logging) : result (list logging) :=
  match l with
  | [] => Raise ValueError
  | y :: l' =>
    if decide (y = x) then Ok l'
    else l'' ← list_remove x l'; Ok (y :: l'')
  end.

Section Client.

(** The HTTP client: its state, and [Client.get_activity_logging_request]
    with arguments [from_date], [to_date], [offset] and [limit], which
    returns the page or raises, and leaves the client in a new state. *)
Context {client : Type}.
Variable get_activity_logging_request :
  client → string → string → Z → Z → result (list logging) * client.

(** The [while] loop of [get_max_fetch_activity_logging]; a page with no
    records breaks out of it, any other page lowers [logging_to_fetch]. *)
Equations? get_max_fetch_loop (c : client) (from_date to_date : string)
  (activity_loggings : list logging) (offset logging_to_fetch : Z)
  : result (list logging) * client
  by wf (Z.to_nat logging_to_fetch) lt :=
get_max_fetch_loop c from_date to_date activity_loggings offset logging_to_fetch
  with decide (logging_to_fetch > 0) := {
  | right _ => (Ok activity_loggings, c)
  | left _
    with get_activity_logging_request c from_date to_date offset
           (if logging_to_fetch <? 1000 then logging_to_fetch else 1000) := {
    | (Raise e, c') => (Raise e, c')
    | (Ok [], c') => (Ok activity_loggings, c')
    | (Ok (r :: res), c') =>
      get_max_fetch_loop c' from_date to_date
        (activity_loggings ++ r :: res)
        (offset + Z.of_nat (length (r :: res)))
        (logging_to_fetch - Z.of_nat (length (r :: res)))
    }
  }.
Proof. simpl length. lia. Qed.

Definition get_max_fetch_activity_logging (c : client)
  (logging_to_fetch : Z) (from_date to_date : string)
  : result (list logging) * client :=
  get_max_fetch_loop c from_date to_date [] 0 logging_to_fetch.

(** The [for] loop of [remove_duplicated_activity_logging]: it runs over a
    copy of the list and removes from the list itself. *)
Fixpoint remove_duplicated_loop (copy activity_loggings : list logging)
  (time_to_check : string) (last_fetched_loggings : gset logging_id)
  : result (list logging * string * gset logging_id) :=
  match copy with
  | [] => Ok (activity_loggings, time_to_check, last_fetched_loggings)
  | logging :: copy' =>
    let logging_id := logging !! "taskId" in
    match logging !! "requestTime" with
    | None => Raise TypeError
    | Some logging_request_time =>
      t ← strptime logging_request_time DATE_FORMAT;
      tc ← strptime time_to_check DATE_FORMAT;
      if gt t tc then
        remove_duplicated_loop copy' activity_loggings
          logging_request_time {[logging_id]}
      else if decide (logging_id ∈ last_fetched_loggings) then
        activity_loggings' ← list_remove logging activity_loggings;
        remove_duplicated_loop copy' activity_loggings'
          time_to_check last_fetched_loggings
      else
        remove_duplicated_loop copy' activity_loggings
          time_to_check ({[logging_id]} ∪ last_fetched_loggings)
    end
  end.

(** [set(last_run.get('last_fetched_loggings', []))] *)
Definition fetched_set (lr : last_run) : gset logging_id :=
  list_to_set (default [] (last_fetched_loggings lr)).

Definition remove_duplicated_activity_logging
  (activity_loggings : list logging) (lr : last_run) (time_to_check : string)
  : result (list logging * list logging_id) :=
  '(activity_loggings', _, last_fetched_loggings) ←
    remove_duplicated_loop activity_loggings activity_loggings time_to_check
      (fetched_set lr);
  Ok (activity_loggings', elements last_fetched_loggings).

Definition date_format_with_milliseconds : string := "%Y-%m-%dT%H:%M:%S.%fZ".

(** The loggings are updated in place; the value returned here is the list
    after the update. The result of [replace] is thrown away by the source,
    the whole-second format alone leaves the fraction out. *)
Fixpoint remove_milliseconds_from_time_of_loggings `{Platform}
  (activity_loggings : list logging) : result (list logging) :=
  match activity_loggings with
  | [] => Ok []
  | logging :: rest =>
    match logging !! "requestTime" with
    | None => Raise TypeError
    | Some request_time =>
      request_time_date_obj ←
        strptime request_time date_format_with_milliseconds;
      let _ := replace_microsecond request_time_date_obj 0 in
      request_time' ← strftime request_time_date_obj DATE_FORMAT;
      rest' ← remove_milliseconds_from_time_of_loggings rest;
      Ok (<["requestTime" := request_time']> logging :: rest')
    end
  end.

(** [last_run.get('last_fetch_time', first_fetch.strftime(DATE_FORMAT))] *)
Definition get_from_date `{Platform} (lr : last_run) (first_fetch : datetime)
  : result string :=
  first ← strftime first_fetch DATE_FORMAT;
  Ok (default first (last_fetch_time lr)).

(** Lines 240 to 249 of [fetch_activity_logging]: the deduplication of the
    normalised loggings and the last run that goes with what is left. *)
Definition set_last_run (activity_loggings : list logging)
  (lr : last_run) (from_date : string) : result (list logging * last_run) :=
  '(activity_loggings, last_fetched_loggings) ←
    remove_duplicated_activity_logging activity_loggings lr from_date;
  match last activity_loggings with
  | Some l =>
    let last_log_time := l !! "requestTime" in
    Ok (activity_loggings,
        mkLastRun last_log_time (Some last_fetched_loggings))
  | None => Ok (activity_loggings, lr)
  end.

(** [now] is what [datetime.now(tz=timezone.utc)] returns. *)
Definition fetch_activity_logging `{Platform} (c : client) (max_fetch : Z)
  (first_fetch : datetime) (lr : last_run) (now : datetime)
  : result (list logging * last_run) * client :=
  match get_from_date lr first_fetch with
  | Raise e => (Raise e, c)
  | Ok from_date =>
    match strftime now DATE_FORMAT with
    | Raise e => (Raise e, c)
    | Ok to_date =>
      match get_max_fetch_activity_logging c max_fetch from_date to_date with
      | (Raise e, c') => (Raise e, c')
      | (Ok activity_loggings, c') =>
        (activity_loggings ←
           remove_milliseconds_from_time_of_loggings activity_loggings;
         set_last_run activity_loggings lr from_date, c')
      end
    end
  end.

End Client.

End WorkdayEventCollector.

Import Datetime WorkdayEventCollector.

(** ** A scripted client

    A client that answers from a list of prepared pages, one per call, and
    records the offset and limit of every call; when the script is used up
    it answers with empty pages. *)
Module Mock.

Record client : Type := mkClient {
  script : list (result (list logging));
  calls : list (Z * Z)
}.

Definition get_activity_logging_request (c : client)
  (from_date to_date : string) (offset limit : Z)
  : result (list logging) * client :=
  match script c with
  | [] => (Ok [], mkClient [] (calls c ++ [(offset, limit)]))
  | page :: rest => (page, mkClient rest (calls c ++ [(offset, limit)]))
  end.

Definition returning (pages : list (result (list logging))) : client :=
  mkClient pages [].

Definition record (task_id request_time : string) : logging :=
  {[ "taskId" := task_id; "requestTime" := request_time ]}.

(** A client over a fixed list of loggings on the vendor's side, which
    answers every call with the slice asked for. *)
Definition slice (loggings : list logging) (c : unit)
  (from_date to_date : string) (offset limit : Z)
  : result (list logging) * unit :=
  (Ok (take (Z.to_nat limit) (drop (Z.to_nat offset) loggings)), c).

End Mock.

(** ** The notions of the specification *)

Module Spec.

(** The normalised request time of a logging ([defaults] stands in where the
    field does not parse). *)
Definition request_time (l : logging) : datetime :=
  match l !! "requestTime" with
  | Some s =>
    match strptime s DATE_FORMAT with
    | Ok t => t
    | Raise _ => defaults
    end
  | None => defaults
  end.

Definition task_id (l : logging) : logging_id := l !! "taskId".

(** The boundary pass as the specification words it: one pass from left to
    right over the records, with a running time and a running set of seen
    ids. A record strictly later than the running time moves the time
    forward, resets the set to its own id and is kept; any other record is
    dropped when its id is in the set, and otherwise kept and its id added.
    The result is the kept records, the final time and the final set. *)
Fixpoint boundary_pass (time_to_check : datetime) (seen : gset logging_id)
  (records : list logging) : list logging * (datetime * gset logging_id) :=
  match records with
  | [] => ([], (time_to_check, seen))
  | r :: records' =>
    if gt (request_time r) time_to_check then
      let '(kept, final) :=
        boundary_pass (request_time r) {[task_id r]} records' in
      (r :: kept, final)
    else if decide (task_id r ∈ seen) then
      boundary_pass time_to_check seen records'
    else
      let '(kept, final) :=
        boundary_pass time_to_check ({[task_id r]} ∪ seen) records' in
      (r :: kept, final)
  end.

Definition kept_records (t : datetime) (s : gset logging_id)
  (l : list logging) : list logging := (boundary_pass t s l).1.
Definition final_time (t : datetime) (s : gset logging_id)
  (l : list logging) : datetime := (boundary_pass t s l).2.1.
Definition final_seen (t : datetime) (s : gset logging_id)
  (l : list logging) : gset logging_id := (boundary_pass t s l).2.2.

(** The request time of a logging is in whole-second form. *)
Definition normalized (l : logging) : Prop :=
  ∃ s t, l !! "requestTime" = Some s ∧ strptime s DATE_FORMAT = Ok t.

(** Non-decreasing request times. *)
Definition time_le (a b : logging) : Prop :=
  le (request_time a) (request_time b).

Definition non_decreasing (l : list logging) : Prop := Sorted time_le l.

(** No record is earlier than [t]. *)
Definition not_before (t : datetime) (l : list logging) : Prop :=
  Forall (λ r, le t (request_time r)) l.

(** Every id of the cursor belongs to a record of [history] at the
    watermark. *)
Definition cursor_invariant (watermark : datetime) (seen : gset logging_id)
  (history : list logging) : Prop :=
  ∀ i, i ∈ seen →
    ∃ r, r ∈ history ∧ task_id r = i ∧ request_time r = watermark.

Global Instance time_le_dec (a b : logging) : Decision (time_le a b).
Proof. unfold time_le. apply _. Defined.

(** No page is larger than the limit it was asked with. *)
Definition pages_within_limit {client : Type}
  (request : client → string → string → Z → Z
             → result (list logging) * client) : Prop :=
  ∀ c from_date to_date offset limit res c',
    0 < limit →
    request c from_date to_date offset limit = (Ok res, c') →
    Z.of_nat (length res) <= limit.

(** The calls a pager that follows the specification makes against the
    answers [pages], and the candidates it collects: while fewer than
    [max_fetch] records are accumulated it asks for
    [min (max_fetch - accumulated) 1000] records at offset [accumulated],
    and it stops at the first empty page. *)
Fixpoint paging (max_fetch accumulated : Z)
  (pages : list (result (list logging)))
  : list (Z * Z) * result (list logging) :=
  let call := (accumulated, Z.min (max_fetch - accumulated) 1000) in
  match pages with
  | Ok (r :: res) :: pages' =>
    if decide (max_fetch - accumulated > 0) then
      let '(calls, candidates) :=
        paging max_fetch (accumulated + Z.of_nat (length (r :: res))) pages' in
      (call :: calls, rest ← candidates; Ok ((r :: res) ++ rest))
    else ([], Ok [])
  | Raise e :: _ =>
    if decide (max_fetch - accumulated > 0) then ([call], Raise e)
    else ([], Ok [])
  | _ =>
    if decide (max_fetch - accumulated > 0) then ([call], Ok [])
    else ([], Ok [])
  end.

(** The record with its request time rewritten in whole seconds. *)
Definition truncated `{Platform} (r : logging) (dt : datetime) : logging :=
  <["requestTime" := string_of_list_ascii (seconds_text dt)]> r.

(** [r], whose request time reads [dt], is normalised to [r']. *)
Definition normalises_to `{Platform} (r r' : logging) : Prop :=
  ∃ str dt,
    r !! "requestTime" = Some str ∧
    strptime str date_format_with_milliseconds = Ok dt ∧
    r' = truncated r dt.

(** [from_date] and [to_date] of an invocation. *)
Definition from_date `{Platform} (lr : last_run) (first_fetch : datetime)
  : string :=
  default (string_of_list_ascii (seconds_text first_fetch)) (last_fetch_time lr).

Definition to_date `{Platform} (now : datetime) : string :=
  string_of_list_ascii (seconds_text now).

(** The cursor written when [batch] survived with the final set [seen]. *)
Definition next_run (lr : last_run) (batch : list logging)
  (seen : gset logging_id) : last_run :=
  match last batch with
  | Some r => mkLastRun (r !! "requestTime") (Some (elements seen))
  | None => lr
  end.

End Spec.

(** ** Records and cursors of the concrete runs *)

Module Examples.

Definition A_wire : logging := Mock.record "A" "2024-01-01T00:00:00.000000Z".
Definition B_wire : logging := Mock.record "B" "2024-01-01T00:00:00.000000Z".
Definition C_wire : logging := Mock.record "C" "2024-01-01T00:00:05.000000Z".
Definition A : logging := Mock.record "A" "2024-01-01T00:00:00Z".
Definition B : logging := Mock.record "B" "2024-01-01T00:00:00Z".
Definition C : logging := Mock.record "C" "2024-01-01T00:00:05Z".
Definition D_wire : logging := Mock.record "D" "2024-01-01T00:00:00.000000Z".
Definition D : logging := Mock.record "D" "2024-01-01T00:00:00Z".

Definition midnight : datetime := mkDatetime 2024 1 1 0 0 0 0.
Definition first_fetch : datetime := mkDatetime 2023 12 29 0 0 0 0.
Definition now : datetime := mkDatetime 2024 1 2 0 0 0 0.

Definition cursor : last_run :=
  mkLastRun (Some "2024-01-01T00:00:00Z") (Some [Some "A"]).
Definition cursor_AB : last_run :=
  mkLastRun (Some "2024-01-01T00:00:00Z") (Some [Some "B"; Some "A"]).
Definition cursor_C : last_run :=
  mkLastRun (Some "2024-01-01T00:00:05Z") (Some [Some "C"]).

End Examples.

Import Spec.

(** ** The client class

    [Client] extends [BaseClient] of the host's library, whose
    [_http_request] sends the request and returns the decoded JSON body or
    raises. It is called in two places, and appears here as one operation
    for each, with the keyword arguments of that call and the type of the
    body read there; both act on the same connection. *)
Module Client.

(** The call in [get_access_token]. *)
Record token_request : Type := mkTokenRequest {
  token_method : string;
  token_full_url : option string;
  token_headers : gmap string string;
  token_data : gmap string (option string);
  token_auth : option string * option string
}.

(** The [params] dictionary of [get_activity_logging_request]. *)
Record query : Type := mkQuery {
  query_from : string;
  query_to : string;
  query_limit : option Z;
  query_instancesReturned : Z;
  query_offset : option Z;
  query_returnUserActivityEntryCount : bool
}.

(** The call in [http_request]. *)
Record page_request : Type := mkPageRequest {
  page_method : string;
  page_url_suffix : string;
  page_params : option query;
  page_json_data : option (gmap string string);
  page_headers : gmap string string
}.

(** The body of the token response is [None] or a dictionary of strings;
    the body of a page is a dictionary whose entries are lists of
    loggings. *)
Class BaseClient (connection : Type) : Type := {
  token_http_request :
    connection → token_request
    → result (option (gmap string string)) * connection;
  page_http_request :
    connection → page_request
    → result (gmap string (list logging)) * connection
}.

(** The fields of a [Client] object, with the connection it talks over. A
    parameter of the integration that is not set is [None]. *)
Record client (connection : Type) : Type := mkClient {
  base_url : option string;
  verify : bool;
  proxy : bool;
  _headers : gmap string string;
  client_id : option string;
  client_secret : option string;
  refresh_token : option string;
  token_url : option string;
  wire : connection
}.
Arguments mkClient {connection}.
Arguments base_url {connection}.
Arguments verify {connection}.
Arguments proxy {connection}.
Arguments _headers {connection}.
Arguments client_id {connection}.
Arguments client_secret {connection}.
Arguments refresh_token {connection}.
Arguments token_url {connection}.
Arguments wire {connection}.

Section Methods.

Context `{BaseClient connection}.

Definition with_wire (self : client connection) (w : connection)
  : client connection :=
  mkClient (base_url self) (verify self) (proxy self) (_headers self)
    (client_id self) (client_secret self) (refresh_token self)
    (token_url self) w.

(** [self._headers[key] = value] *)
Definition set_header (self : client connection) (key value : string)
  : client connection :=
  mkClient (base_url self) (verify self) (proxy self)
    (<[key := value]> (_headers self))
    (client_id self) (client_secret self) (refresh_token self)
    (token_url self) (wire self).

(** The request [get_access_token] sends. *)
Definition access_token_request (self : client connection) : token_request :=
  let headers : gmap string string :=
    {[ "Content-Type" := "application/x-www-form-urlencoded" ]} in
  let data : gmap string (option string) :=
    {[ "grant_type" := Some "refresh_token";
       "refresh_token" := refresh_token self ]} in
  mkTokenRequest "POST" (token_url self) headers data
    (client_id self, client_secret self).

(** The result is [None] when the body is [None] or an empty dictionary,
    and when the dictionary has no ["access_token"]. *)
Definition get_access_token (self : client connection)
  : result (option string) * client connection :=
  match token_http_request (wire self) (access_token_request self) with
  | (Raise e, w) => (Raise e, with_wire self w)
  | (Ok workday_resp_token, w) =>
    (Ok match workday_resp_token with
        | Some resp =>
          if decide (resp = ∅) then None else resp !! "access_token"
        | None => None
        end,
     with_wire self w)
  end.

(** [f"{access_token}"] *)
Definition format (access_token : option string) : string :=
  default "None" access_token.

(** [headers] is [self._headers] itself, so the client keeps the
    [Authorization] entry written here. *)
Definition http_request (self : client connection)
  (method url_suffix : string) (params : option query)
  (json_data : option (gmap string string))
  : result (gmap string (list logging)) * client connection :=
  match get_access_token self with
  | (Raise e, self) => (Raise e, self)
  | (Ok access_token, self) =>
    let self :=
      set_header self "Authorization" ("Bearer " +:+ format access_token) in
    let headers := _headers self in
    match
      page_http_request (wire self)
        (mkPageRequest method url_suffix params json_data headers)
    with
    | (res, w) => (res, with_wire self w)
    end
  end.

Definition get_activity_logging_request (self : client connection)
  (from_date to_date : string) (offset : option Z)
  (user_activity_entry_count : bool) (limit : option Z)
  : result (list logging) * client connection :=
  let params :=
    mkQuery from_date to_date limit 1 offset user_activity_entry_count in
  match http_request self "GET" "/activityLogging" (Some params) None with
  | (Raise e, self) => (Raise e, self)
  | (Ok res, self) => (Ok (default [] (res !! "data")), self)
  end.

End Methods.

End Client.

(** ** The commands and [main] *)
Module Integration.
Import Client.

(** An event is a logging with its [_time]; a value [None] is Python's
    [None]. *)
Abbreviation event := (gmap string (option string)).

Record CommandResults : Type := mkCommandResults { readable_output : string }.

(** The functions of the host's library that the commands call and that
    compute a value: [arg_to_datetime(arg=...)], and [tableToMarkdown] with
    the title and the table (its other arguments are the same at its one
    call). *)
Class CommonServerPython : Type := {
  arg_to_datetime : option string → result (option datetime);
  tableToMarkdown : string → list logging → string
}.

(** [send_events_to_xsiam(events, vendor, product)] goes over the
    connection, and may raise. *)
Class XSIAM (connection : Type) : Type := {
  send_events_to_xsiam :
    connection → list event → string → string → result () * connection
}.

(** [needle in haystack] on strings. *)
Fixpoint contains (needle haystack : string) : bool :=
  String.prefix needle haystack ||
  match haystack with
  | EmptyString => false
  | String _ rest => contains needle rest
  end.

Fixpoint add_time_to_loggings `{Platform} `{CommonServerPython}
  (activity_loggings : list logging) : result (list event) :=
  match activity_loggings with
  | [] => Ok []
  | logging :: rest =>
    create_time ← arg_to_datetime (logging !! "requestTime");
    _time ← match create_time with
            | Some create_time =>
              time ← strftime create_time DATE_FORMAT; Ok (Some time)
            | None => Ok None
            end;
    rest ← add_time_to_loggings rest;
    Ok (<["_time" := _time]> (Some <$> logging) :: rest)
  end.

Section Commands.

Context `{Platform} `{CommonServerPython}.
Context `{BaseClient connection} `{XSIAM connection}.

(** The call of the client in [get_max_fetch_activity_logging], which
    leaves [user_activity_entry_count] at its default. *)
Definition request (c : client connection) (from_date to_date : string)
  (offset limit : Z) : result (list logging) * client connection :=
  get_activity_logging_request c from_date to_date (Some offset) false
    (Some limit).

Definition get_activity_logging_command (c : client connection)
  (from_date to_date : string) (limit offset : option Z)
  : result (list logging * CommandResults) * client connection :=
  match get_activity_logging_request c from_date to_date offset false limit with
  | (Raise e, c) => (Raise e, c)
  | (Ok activity_loggings, c) =>
    (activity_loggings ←
       remove_milliseconds_from_time_of_loggings activity_loggings;
     let readable_output :=
       tableToMarkdown "Activity Logging List:" activity_loggings in
     Ok (activity_loggings, mkCommandResults readable_output), c)
  end.

(** [str(e)] of a [DemistoException] is its message; an exception of
    another class is not caught. *)
Definition test_module (c : client connection)
  : result string * client connection :=
  match get_access_token c with
  | (Ok _, c) => (Ok "ok", c)
  | (Raise (DemistoException msg), c) =>
    if contains "Forbidden" msg || contains "Authorization" msg then
      (Ok "Authorization Error: make sure all parameters are correctly set", c)
    else (Raise (DemistoException msg), c)
  | (Raise e, c) => (Raise e, c)
  end.

(** What [main] reads from the host: the parameters of the integration
    and the arguments of the command, [max_fetch], [first_fetch],
    [should_push_events], [limit] and [offset] as [arg_to_number],
    [arg_to_datetime] and [argToBoolean] returned them. *)
Record params : Type := mkParams {
  params_base_url : option string;
  params_token_url : option string;
  credentials_identifier : option string;
  credentials_password : option string;
  token_password : option string;
  insecure : bool;
  params_proxy : bool;
  params_max_fetch : option Z;
  params_first_fetch : datetime
}.

Record args : Type := mkArgs {
  should_push_events : bool;
  args_from_date : string;
  args_to_date : string;
  args_limit : option Z;
  args_offset : option Z
}.

(** The exceptions of [main]: those of the calls it makes, and the one for
    a local variable read before any assignment. *)
Inductive error : Type :=
| Raised (e : exn)
| UnboundLocalError (variable : string).

Inductive returned : Type :=
| Message (message : string)
| Results (results : CommandResults).

(** The calls [main] makes to the host, in order. [ReturnError] stands for
    [return_error] with the message made of the command and [str(e)]. *)
Inductive host_call : Type :=
| ReturnResults (r : returned)
| SendEvents (events : list event) (vendor product : string)
| SetLastRun (lr : last_run)
| ReturnError (command : string) (e : error).

(** A dictionary is true when it has a key. *)
Definition truthy (lr : last_run) : bool :=
  match last_fetch_time lr, last_fetched_loggings lr with
  | None, None => false
  | _, _ => true
  end.

(** The body of the [try] statement of [main]: the exception that ended
    it, if any, the calls to the host and the connection. [new_last_run] is
    bound in the [fetch-events] branch only. *)
Definition main_try (command : string) (args : args) (max_fetch : Z)
  (first_fetch : datetime) (last_run : last_run) (now : datetime)
  (client : client connection)
  : option error * list host_call * connection :=
  if decide (command = "test-module") then
    match test_module client with
    | (Raise e, c) => (Some (Raised e), [], wire c)
    | (Ok message, c) => (None, [ReturnResults (Message message)], wire c)
    end
  else if decide (command ∈ ["workday-get-activity-logging"; "fetch-events"])
  then
    let '(fetched, calls, c) :=
      if decide (command = "workday-get-activity-logging") then
        match
          get_activity_logging_command client (args_from_date args)
            (args_to_date args) (args_limit args) (args_offset args)
        with
        | (Raise e, c) => (Raise e, [], c)
        | (Ok (activity_loggings, results), c) =>
          (Ok (should_push_events args, activity_loggings, None),
           [ReturnResults (Results results)], c)
        end
      else
        match
          fetch_activity_logging request client max_fetch first_fetch
            last_run now
        with
        | (Raise e, c) => (Raise e, [], c)
        | (Ok (activity_loggings, new_last_run), c) =>
          (Ok (true, activity_loggings, Some new_last_run), [], c)
        end in
    match fetched with
    | Raise e => (Some (Raised e), calls, wire c)
    | Ok (should_push_events, activity_loggings, new_last_run) =>
      if should_push_events : bool then
        match add_time_to_loggings activity_loggings with
        | Raise e => (Some (Raised e), calls, wire c)
        | Ok events =>
          let calls := calls ++ [SendEvents events VENDOR PRODUCT] in
          match send_events_to_xsiam (wire c) events VENDOR PRODUCT with
          | (Raise e, w) => (Some (Raised e), calls, w)
          | (Ok _, w) =>
            match new_last_run with
            | None => (Some (UnboundLocalError "new_last_run"), calls, w)
            | Some new_last_run =>
              if truthy new_last_run then
                (None, calls ++ [SetLastRun new_last_run], w)
              else (None, calls, w)
            end
          end
        end
      else (None, calls, wire c)
    end
  else (None, [], wire client).

(** [value or default] on an optional number: [None] and [0] are false. *)
Definition or_else (value : option Z) (default : Z) : Z :=
  match value with
  | Some n => if decide (n = 0) then default else n
  | None => default
  end.

(** The client [main] builds from the parameters. *)
Definition new_client (params : params) (w : connection)
  : client connection :=
  let verify_certificate := negb (insecure params) in
  mkClient (params_base_url params) verify_certificate (params_proxy params)
    {[ "Accept" := "application/json";
       "Content-Type" := "application/json" ]}
    (credentials_identifier params) (credentials_password params)
    (token_password params) (params_token_url params) w.

(** [last_run] is what [demisto.getLastRun()] returns, [now] what
    [datetime.now] returns, [w] the connection at the start. *)
Definition main (command : string) (args : args) (params : params)
  (last_run : last_run) (now : datetime) (w : connection)
  : list host_call * connection :=
  let max_fetch := or_else (params_max_fetch params) 1000 in
  let first_fetch := params_first_fetch params in
  let '(raised, calls, w) :=
    main_try command args max_fetch first_fetch last_run now
      (new_client params w) in
  match raised with
  | Some e => (calls ++ [ReturnError command e], w)
  | None => (calls, w)
  end.

End Commands.

End Integration.

(** ** A scripted connection

    A connection that answers token requests, page requests and the sending
    of events from three prepared lists, and records what was sent; when a
    list is used up the answer is an empty body, or success. *)
Module Wire.
Import Client Integration.

Inductive sent : Type :=
| TokenRequest (r : token_request)
| PageRequest (r : page_request)
| Events (events : list event).

Record connection : Type := mkConnection {
  tokens : list (result (option (gmap string string)));
  pages : list (result (gmap string (list logging)));
  sendings : list (result ());
  log : list sent
}.

Global Instance base_client : BaseClient connection := {|
  token_http_request w r :=
    (default (Ok None) (head (tokens w)),
     mkConnection (tail (tokens w)) (pages w) (sendings w)
       (log w ++ [TokenRequest r]));
  page_http_request w r :=
    (default (Ok ∅) (head (pages w)),
     mkConnection (tokens w) (tail (pages w)) (sendings w)
       (log w ++ [PageRequest r]))
|}.

Global Instance xsiam : XSIAM connection := {|
  send_events_to_xsiam w events vendor product :=
    (default (Ok ()) (head (sendings w)),
     mkConnection (tokens w) (pages w) (tail (sendings w))
       (log w ++ [Events events]))
|}.

(** A library that reads whole-second times alone, and prints a table as
    its title. *)
Definition whole_seconds : CommonServerPython := {|
  arg_to_datetime arg :=
    match arg with
    | Some s => dt ← strptime s DATE_FORMAT; Ok (Some dt)
    | None => Ok None
    end;
  tableToMarkdown name t := name
|}.

End Wire.

(** ** Parameters, arguments and connections of the concrete runs *)
Module Runs.
Import Client Integration.

Definition parameters (max_fetch : option Z) : params :=
  mkParams (Some "https://workday.example/api")
    (Some "https://workday.example/token") (Some "id") (Some "secret")
    (Some "refresh") false false max_fetch Examples.first_fetch.

Definition arguments (push : bool) : args :=
  mkArgs push "2024-01-01T00:00:00Z" "2024-01-02T00:00:00Z" (Some 10) (Some 0).

Definition connection (tokens : list (result (option (gmap string string))))
  (pages : list (result (gmap string (list logging)))) : Wire.connection :=
  Wire.mkConnection tokens pages [] [].

Definition token : option (gmap string string) :=
  Some {[ "access_token" := "abc" ]}.

Definition page (loggings : list logging) : gmap string (list logging) :=
  {[ "data" := loggings ]}.

Definition self (w : Wire.connection) : client Wire.connection :=
  new_client (parameters (Some 1000)) w.

End Runs.

(** * Properties *)

Arguments strptime : simpl never.
Arguments strftime : simpl never.

(** Equations between closed terms, checked by evaluation. *)
Local Ltac by_evaluation :=
  lazymatch goal with |- _ = ?b => vm_cast_no_check (@eq_refl _ b) end.

(** ** The embedding on some inputs *)

Section Evaluation.

Import Examples.

Example strptime_milliseconds :
  strptime "2024-01-01T00:00:00.999000Z" date_format_with_milliseconds
    = Ok (mkDatetime 2024 1 1 0 0 0 999000).
Proof. by_evaluation. Qed.

Example strptime_short_fraction :
  strptime "2024-1-1t0:0:7.5z" date_format_with_milliseconds
    = Ok (mkDatetime 2024 1 1 0 0 7 500000).
Proof. by_evaluation. Qed.

Example strptime_whole_seconds :
  strptime "2024-01-01T00:00:05Z" DATE_FORMAT
    = Ok (mkDatetime 2024 1 1 0 0 5 0).
Proof. by_evaluation. Qed.

Example strptime_no_fraction :
  strptime "2024-01-01T00:00:00Z" date_format_with_milliseconds
    = Raise ValueError.
Proof. by_evaluation. Qed.

Example strptime_unconverted_data :
  strptime "2024-01-01T00:00:00.5Z" DATE_FORMAT = Raise ValueError.
Proof. by_evaluation. Qed.

Example strptime_day_out_of_range :
  strptime "2023-02-29T00:00:00Z" DATE_FORMAT = Raise ValueError.
Proof. by_evaluation. Qed.

Example strftime_drops_microseconds :
  strftime (H := glibc) (mkDatetime 2024 1 1 0 0 0 999000) DATE_FORMAT
    = Ok "2024-01-01T00:00:00Z"%string.
Proof. by_evaluation. Qed.

Example strftime_year_below_1000 :
  strftime (H := glibc) (mkDatetime 999 1 1 0 0 0 0) DATE_FORMAT
    = Ok "999-01-01T00:00:00Z"%string.
Proof. by_evaluation. Qed.

(** [list.remove] takes out the first element equal to the one at hand: of
    two equal records with another one between them, the first is the one
    that leaves the list when the second is found to be a duplicate. *)
Example remove_takes_the_first_equal_record :
  remove_duplicated_activity_logging [B; D; B]
    (mkLastRun (Some "2024-01-01T00:00:00Z") None) "2024-01-01T00:00:00Z"
    = Ok ([D; B], [Some "B"; Some "D"]) ∧
  kept_records midnight ∅ [B; D; B] = [B; D].
Proof. split; by_evaluation. Qed.

End Evaluation.

(** ** The order on [datetime] *)

Section Order.

Lemma fields_inj a b : fields a = fields b → a = b.
Proof.
  destruct a, b. unfold fields. simpl.
  intros [= -> -> -> -> -> -> ->]. reflexivity.
Qed.

Global Instance before_strict : StrictOrder before.
Proof.
  split.
  - intros a. unfold complement, before. apply irreflexivity, _.
  - intros a b c. unfold before. apply transitivity.
Qed.

Lemma before_trichotomy a b : before a b ∨ a = b ∨ before b a.
Proof.
  unfold before.
  destruct (trichotomy lexico (fields a) (fields b)) as [?|[?|?]];
    auto using fields_inj.
Qed.

Lemma gt_spec a b : gt a b = true ↔ before b a.
Proof. unfold gt. apply bool_decide_eq_true. Qed.

Lemma gt_false a b : gt a b = false ↔ le a b.
Proof. unfold gt, le. apply bool_decide_eq_false. Qed.

Lemma dt_le_refl a : le a a.
Proof. unfold le. apply irreflexivity, _. Qed.

Lemma dt_le_trans a b c : le a b → le b c → le a c.
Proof.
  unfold le. intros Hab Hbc Hca.
  destruct (before_trichotomy a b) as [H|[->|H]]; [|done..].
  apply Hbc. by etrans.
Qed.

Lemma dt_le_antisym a b : le a b → le b a → a = b.
Proof. unfold le. intros ??. by destruct (before_trichotomy a b) as [?|[?|?]]. Qed.

Lemma before_le a b : before a b → le a b.
Proof. unfold le. intros H1 H2. by apply (irreflexivity before a); etrans. Qed.

Lemma dt_le_total a b : le a b ∨ le b a.
Proof.
  destruct (before_trichotomy a b) as [?|[->|?]];
    auto using before_le, dt_le_refl.
Qed.

End Order.

(** ** [list.remove] *)

Section ListRemove.

Lemma list_remove_elem (x : logging) (l : list logging) :
  x ∈ l → ∃ l', list_remove x l = Ok l' ∧ l ≡ₚ x :: l' ∧ l' `sublist_of` l.
Proof.
  induction l as [|y l IH]; [by intros ?%elem_of_nil|].
  intros Hx. simpl. case_decide as Hy.
  - subst y. exists l. split_and!; [done..|]. by apply sublist_cons.
  - apply elem_of_cons in Hx as [->|Hx]; [done|].
    destruct (IH Hx) as (l' & -> & Hp & Hs). exists (y :: l'). simpl.
    split_and!; [done| |by apply sublist_skip].
    rewrite Hp. apply Permutation_swap.
Qed.

Lemma list_remove_middle (x : logging) (pre post : list logging) :
  x ∉ pre → list_remove x (pre ++ x :: post) = Ok (pre ++ post).
Proof.
  induction pre as [|y pre IH]; simpl; intros Hx.
  - by rewrite decide_True.
  - apply not_elem_of_cons in Hx as [? ?].
    rewrite decide_False by done. by rewrite IH.
Qed.

End ListRemove.

(** ** The boundary pass *)

Section BoundaryPass.

Implicit Types (t : datetime) (s : gset logging_id) (r : logging)
  (l : list logging).

Lemma boundary_pass_cons t s r l :
  boundary_pass t s (r :: l) =
    if gt (request_time r) t then
      (r :: kept_records (request_time r) {[task_id r]} l,
       (final_time (request_time r) {[task_id r]} l,
        final_seen (request_time r) {[task_id r]} l))
    else if decide (task_id r ∈ s) then boundary_pass t s l
    else
      (r :: kept_records t ({[task_id r]} ∪ s) l,
       (final_time t ({[task_id r]} ∪ s) l,
        final_seen t ({[task_id r]} ∪ s) l)).
Proof.
  unfold kept_records, final_time, final_seen. simpl.
  destruct (gt _ _); [by destruct (boundary_pass _ _ l) as [? [? ?]]|].
  case_decide; [done|]. by destruct (boundary_pass _ _ l) as [? [? ?]].
Qed.

(** Case analysis on what the pass does with the first record. *)
Lemma boundary_pass_cases t s r l :
  (before t (request_time r) ∧
   kept_records t s (r :: l) = r :: kept_records (request_time r) {[task_id r]} l ∧
   final_time t s (r :: l) = final_time (request_time r) {[task_id r]} l ∧
   final_seen t s (r :: l) = final_seen (request_time r) {[task_id r]} l) ∨
  (le (request_time r) t ∧ task_id r ∈ s ∧
   kept_records t s (r :: l) = kept_records t s l ∧
   final_time t s (r :: l) = final_time t s l ∧
   final_seen t s (r :: l) = final_seen t s l) ∨
  (le (request_time r) t ∧ (task_id r ∉ s) ∧
   kept_records t s (r :: l) = r :: kept_records t ({[task_id r]} ∪ s) l ∧
   final_time t s (r :: l) = final_time t ({[task_id r]} ∪ s) l ∧
   final_seen t s (r :: l) = final_seen t ({[task_id r]} ∪ s) l).
Proof.
  unfold kept_records at 1 3 5, final_time at 1 3 5, final_seen at 1 3 5.
  rewrite boundary_pass_cons.
  destruct (gt (request_time r) t) eqn:Hgt.
  - left. by apply gt_spec in Hgt.
  - apply gt_false in Hgt. right. case_decide; [left|right]; done.
Qed.

Lemma kept_records_sublist t s l : kept_records t s l `sublist_of` l.
Proof.
  revert t s. induction l as [|r l IH]; intros t s; [done|].
  destruct (boundary_pass_cases t s r l)
    as [(_ & -> & _)|[(_ & _ & -> & _)|(_ & _ & -> & _)]].
  - by apply sublist_skip.
  - by apply sublist_cons.
  - by apply sublist_skip.
Qed.

Lemma kept_records_elem t s l r : r ∈ kept_records t s l → r ∈ l.
Proof. intros Hr. eapply elem_of_sublist; [done|apply kept_records_sublist]. Qed.

(** The running time never moves backwards. *)
Lemma final_time_le t s l : le t (final_time t s l).
Proof.
  revert t s. induction l as [|r l IH]; intros t s; [apply dt_le_refl|].
  destruct (boundary_pass_cases t s r l)
    as [(Hb & _ & -> & _)|[(_ & _ & _ & -> & _)|(_ & _ & _ & -> & _)]];
    [|done..].
  eapply dt_le_trans; [by apply before_le|done].
Qed.

(** The running time bounds every record of the input. *)
Lemma final_time_upper_bound t s l r :
  r ∈ l → le (request_time r) (final_time t s l).
Proof.
  revert t s. induction l as [|x l IH]; intros t s Hr; [by apply elem_of_nil in Hr|].
  apply elem_of_cons in Hr.
  destruct (boundary_pass_cases t s x l)
    as [(Hb & _ & -> & _)|[(Hle & _ & _ & -> & _)|(Hle & _ & _ & -> & _)]];
    destruct Hr as [->|Hr]; auto using final_time_le;
    eapply dt_le_trans; eauto using final_time_le.
Qed.

(** While no kept record is later than the running time, the time stays and
    the set only grows, by the ids of the kept records. *)
Lemma boundary_pass_no_advance t s l :
  (∀ r, r ∈ kept_records t s l → le (request_time r) t) →
  final_time t s l = t ∧
  final_seen t s l = s ∪ list_to_set (task_id <$> kept_records t s l).
Proof.
  revert s. induction l as [|x l IH]; intros s Hk.
  { unfold final_time, final_seen, kept_records. simpl. split; [done|set_solver]. }
  destruct (boundary_pass_cases t s x l)
    as [(Hb & Hkept & _)|[(_ & _ & Hkept & -> & ->)|(_ & _ & Hkept & -> & ->)]];
    rewrite Hkept in Hk |- *.
  - exfalso. apply (Hk x); [apply list_elem_of_here|done].
  - by apply IH.
  - destruct (IH ({[task_id x]} ∪ s)) as [-> ->].
    { intros r Hr. apply Hk. by apply list_elem_of_further. }
    split; [done|]. rewrite fmap_cons, list_to_set_cons. set_solver.
Qed.

(** The id of a kept record that no kept record is later than is in the
    final set. *)
Lemma final_seen_latest t s l r :
  r ∈ kept_records t s l →
  (∀ r', r' ∈ kept_records t s l → le (request_time r') (request_time r)) →
  task_id r ∈ final_seen t s l.
Proof.
  revert t s. induction l as [|x l IH]; intros t s Hr Hmax.
  { by apply elem_of_nil in Hr. }
  destruct (boundary_pass_cases t s x l)
    as [(Hb & Hkept & _ & ->)|[(_ & _ & Hkept & _ & ->)|(Hle & _ & Hkept & _ & ->)]];
    rewrite Hkept in Hr, Hmax.
  - apply elem_of_cons in Hr as [->|Hr].
    + destruct (boundary_pass_no_advance (request_time x) {[task_id x]} l)
        as [_ ->]; [|set_solver].
      intros r' Hr'. apply Hmax. by apply list_elem_of_further.
    + apply IH; [done|]. intros r' Hr'. apply Hmax. by apply list_elem_of_further.
  - by apply IH.
  - apply elem_of_cons in Hr as [->|Hr].
    + destruct (boundary_pass_no_advance t ({[task_id x]} ∪ s) l)
        as [_ ->]; [|set_solver].
      intros r' Hr'. eapply dt_le_trans; [|exact Hle].
      apply Hmax. by apply list_elem_of_further.
    + apply IH; [done|]. intros r' Hr'. apply Hmax. by apply list_elem_of_further.
Qed.

Global Instance time_le_trans : Transitive time_le.
Proof. intros a b c. unfold time_le. apply dt_le_trans. Qed.

Lemma non_decreasing_cons r l :
  non_decreasing (r :: l) →
  non_decreasing l ∧ not_before (request_time r) l.
Proof.
  intros H%Sorted_StronglySorted; [|apply _].
  apply StronglySorted_inv in H as [H1 H2]. split; [|done].
  by apply StronglySorted_Sorted.
Qed.

Lemma non_decreasing_sublist l1 l2 :
  l1 `sublist_of` l2 → non_decreasing l2 → non_decreasing l1.
Proof.
  intros Hsub H%Sorted_StronglySorted; [|apply _].
  apply StronglySorted_Sorted.
  induction Hsub as [|x l1 l2 Hsub IH|x l1 l2 Hsub IH]; [constructor|..];
    apply StronglySorted_inv in H as [H1 H2].
  - constructor; [by apply IH|].
    apply Forall_forall. intros y Hy.
    eapply (proj1 (Forall_forall _ _) H2), elem_of_sublist; done.
  - by apply IH.
Qed.

(** In a non-decreasing list no record is later than the last one. *)
Lemma non_decreasing_last l z r :
  non_decreasing l → last l = Some z → r ∈ l → time_le r z.
Proof.
  intros H%Sorted_StronglySorted; [|apply _]. revert z r.
  induction H as [|x l Hl IH Hx]; intros z r Hlast Hr; [done|].
  destruct l as [|y l].
  - apply elem_of_cons in Hr as [->|[]%elem_of_nil]. simpl in Hlast.
    injection Hlast as ->. unfold time_le. apply dt_le_refl.
  - rewrite last_cons_cons in Hlast.
    apply elem_of_cons in Hr as [->|Hr]; [|by apply IH].
    apply (proj1 (Forall_forall _ _) Hx).
    apply last_Some in Hlast as [l' ->]. set_solver.
Qed.

(** With non-decreasing input at or after the running time, a kept record
    at the initial running time has an id outside the initial set. *)
Lemma kept_at_boundary_fresh t s l r :
  non_decreasing l → not_before t l →
  r ∈ kept_records t s l → request_time r = t → task_id r ∉ s.
Proof.
  revert s. induction l as [|x l IH]; intros s Hsort Hge Hr Ht.
  { by apply elem_of_nil in Hr. }
  apply non_decreasing_cons in Hsort as [Hsort Hx].
  apply Forall_cons in Hge as [Hxt Hge].
  destruct (boundary_pass_cases t s x l)
    as [(Hb & Hkept & _)|[(_ & _ & Hkept & _)|(_ & Hfresh & Hkept & _)]];
    rewrite Hkept in Hr.
  - exfalso. apply elem_of_cons in Hr as [->|Hr].
    + rewrite Ht in Hb. by apply (irreflexivity before t).
    + apply kept_records_elem in Hr.
      apply (proj1 (Forall_forall _ _) Hx) in Hr. rewrite Ht in Hr. by apply Hr.
  - by apply IH.
  - apply elem_of_cons in Hr as [->|Hr]; [done|].
    apply IH in Hr; [set_solver|done..].
Qed.

(** With non-decreasing input at or after the running time, every id of the
    final set is an id of the initial set while the time has not moved, or
    the id of a kept record at the final time. *)
Lemma final_seen_at_final_time t s l i :
  non_decreasing l → not_before t l →
  i ∈ final_seen t s l →
  (i ∈ s ∧ final_time t s l = t) ∨
  (∃ r, r ∈ kept_records t s l ∧ task_id r = i ∧
        request_time r = final_time t s l).
Proof.
  revert t s. induction l as [|x l IH]; intros t s Hsort Hge Hi.
  { left. done. }
  apply non_decreasing_cons in Hsort as [Hsort Hx].
  apply Forall_cons in Hge as [Hxt Hge].
  destruct (boundary_pass_cases t s x l)
    as [(Hb & -> & -> & Hs)|[(_ & _ & -> & -> & Hs)|(Hle & _ & -> & -> & Hs)]];
    rewrite Hs in Hi.
  - right. apply IH in Hi as [[Hi Ht]|(r & Hr & Hid & Hr')]; [..|done|done].
    + exists x. apply elem_of_singleton in Hi.
      split_and!; [apply list_elem_of_here|done..].
    + exists r. split_and!; [by apply list_elem_of_further|done..].
  - by apply IH.
  - apply IH in Hi as [[Hi Ht]|(r & Hr & Hid & Hr')]; [..|done|done].
    + apply elem_of_union in Hi as [Hi%elem_of_singleton|Hi]; [right|by left].
      exists x. split_and!; [apply list_elem_of_here|done|].
      rewrite Ht. by apply dt_le_antisym.
    + right. exists r. split_and!; [by apply list_elem_of_further|done..].
Qed.

(** With such input, some kept record is at the final time. *)
Lemma kept_reaches_final_time t s l :
  non_decreasing l → not_before t l →
  kept_records t s l ≠ [] →
  ∃ r, r ∈ kept_records t s l ∧ request_time r = final_time t s l.
Proof.
  revert t s. induction l as [|x l IH]; intros t s Hsort Hge Hne; [done|].
  apply non_decreasing_cons in Hsort as [Hsort Hx].
  apply Forall_cons in Hge as [Hxt Hge].
  assert (∀ t' s', not_before t' l → request_time x = t' →
    ∃ r, r ∈ x :: kept_records t' s' l ∧ request_time r = final_time t' s' l)
    as Hkeep.
  { intros t' s' Hge' Hxt'.
    destruct (kept_records t' s' l) as [|k kept] eqn:Hk.
    - exists x. split; [apply list_elem_of_here|].
      destruct (boundary_pass_no_advance t' s' l) as [-> _]; [|done].
      rewrite Hk. by intros r ?%elem_of_nil.
    - destruct (IH t' s') as (r & Hr & Ht); [done|done|by rewrite Hk|].
      exists r. rewrite Hk in Hr. split; [by apply list_elem_of_further|done]. }
  destruct (boundary_pass_cases t s x l)
    as [(Hb & Hk & -> & _)|[(_ & _ & Hk & -> & _)|(Hle & _ & Hk & -> & _)]];
    rewrite Hk in Hne |- *.
  - by apply Hkeep.
  - by apply IH.
  - apply Hkeep; [done|]. by apply dt_le_antisym.
Qed.

End BoundaryPass.

(** ** The loop of [remove_duplicated_activity_logging] against the pass *)

Section RemoveDuplicated.

Implicit Types (t : datetime) (s : gset logging_id) (r : logging)
  (l copy cur pre out : list logging).

Lemma normalized_request_time r :
  normalized r →
  ∃ str, r !! "requestTime" = Some str ∧
         strptime str DATE_FORMAT = Ok (request_time r).
Proof.
  intros (str & t & Hget & Hparse). exists str. split; [done|].
  unfold request_time. by rewrite Hget, Hparse.
Qed.

(** The loop never raises on normalised records, its running time and set
    are those of the pass, and the list it leaves holds the kept records:
    the same records as often, each time a record is dropped the first list
    element equal to it being the one deleted. *)
Lemma remove_duplicated_loop_pass copy : ∀ cur pre time_to_check t s,
  strptime time_to_check DATE_FORMAT = Ok t →
  Forall normalized copy →
  cur ≡ₚ pre ++ copy →
  ∃ out time_to_check',
    remove_duplicated_loop copy cur time_to_check s
      = Ok (out, time_to_check', final_seen t s copy) ∧
    strptime time_to_check' DATE_FORMAT = Ok (final_time t s copy) ∧
    out ≡ₚ pre ++ kept_records t s copy ∧
    out `sublist_of` cur ∧
    (final_time t s copy = t → time_to_check' = time_to_check) ∧
    (cur = pre ++ copy → NoDup cur → out = pre ++ kept_records t s copy).
Proof.
  induction copy as [|r copy IH]; intros cur pre ttc t s Hparse Hnorm Hperm.
  { exists cur, ttc. unfold final_seen, final_time, kept_records. simpl.
    rewrite app_nil_r in *. done. }
  apply Forall_cons in Hnorm as [Hr Hnorm].
  destruct (normalized_request_time r Hr) as (str & Hget & Hstr).
  assert (cur ≡ₚ (pre ++ [r]) ++ copy) as Hperm' by by rewrite <-app_assoc.
  simpl. rewrite Hget, Hstr, Hparse. simpl.
  change (r !! "taskId") with (task_id r).
  destruct (boundary_pass_cases t s r copy)
    as [(Hb & -> & -> & ->)|[(Hle & Hin & -> & -> & ->)|(Hle & Hin & -> & -> & ->)]].
  - apply gt_spec in Hb. rewrite Hb.
    destruct (IH cur (pre ++ [r]) str (request_time r) {[task_id r]})
      as (out & ttc' & -> & Hp & Hout & Hsub & Hsame & Hexact); [done..|].
    exists out, ttc'. split_and!; [done|done| |done| |].
    + by rewrite Hout, <-app_assoc.
    + intros Heq. exfalso. apply gt_spec in Hb.
      pose proof (final_time_le (request_time r) {[task_id r]} copy) as Hfin.
      rewrite Heq in Hfin. by apply Hfin.
    + intros -> Hnd. rewrite Hexact, <-app_assoc; [done| |done].
      by rewrite <-app_assoc.
  - apply gt_false in Hle. rewrite Hle, decide_True by done.
    destruct (list_remove_elem r cur) as (cur' & Hrm & Hcur & Hsub').
    { rewrite Hperm. set_solver. }
    rewrite Hrm. simpl.
    destruct (IH cur' pre ttc t s)
      as (out & ttc' & -> & Hp & Hout & Hsub & Hsame & Hexact); [done..| |].
    { apply (inj (cons r)). by rewrite <-Hcur, Hperm, Permutation_middle. }
    exists out, ttc'. split_and!; [done..|by etrans|done|].
    intros -> Hnd. apply Hexact.
    + rewrite list_remove_middle in Hrm; [by injection Hrm|].
      apply NoDup_app in Hnd as (_ & Hnd & _). intros ?. eapply Hnd; [done|].
      apply list_elem_of_here.
    + by eapply sublist_NoDup.
  - apply gt_false in Hle. rewrite Hle, decide_False by done.
    destruct (IH cur (pre ++ [r]) ttc t ({[task_id r]} ∪ s))
      as (out & ttc' & -> & Hp & Hout & Hsub & Hsame & Hexact); [done..|].
    exists out, ttc'. split_and!; [done|done| |done|done|].
    + by rewrite Hout, <-app_assoc.
    + intros -> Hnd. rewrite Hexact, <-app_assoc; [done| |done].
      by rewrite <-app_assoc.
Qed.

End RemoveDuplicated.

(** ** Parsing *)

Section Parsing.

Implicit Types (s txt rest : list ascii) (ds : list directive).

Lemma first_some_Some {A B} (f : A → option B) (l : list A) b :
  first_some f l = Some b → ∃ a, a ∈ l ∧ f a = Some b.
Proof.
  induction l as [|a l IH]; [done|]. simpl.
  destruct (f a) as [b'|] eqn:Hfa.
  - intros [= ->]. exists a. split; [apply list_elem_of_here|done].
  - intros (a' & ? & ?)%IH. exists a'. split; [by apply list_elem_of_further|done].
Qed.

Lemma match_classes_inv cls s txt rest :
  match_classes cls s = Some (txt, rest) →
  s = txt ++ rest ∧ in_classes cls txt.
Proof.
  revert s txt. induction cls as [|p cls IH]; intros s txt; simpl.
  { intros [= <- <-]. split; [done|constructor]. }
  destruct s as [|c s]; [done|]. destruct (p c) eqn:Hp; [|done].
  destruct (match_classes cls s) as [[txt' rest']|] eqn:Hm; [|done].
  simpl. intros [= <- <-]. destruct (IH _ _ Hm) as [-> ?].
  split; [done|by constructor].
Qed.

Lemma regex_match_inv ds s groups rest :
  regex_match ds s = Some (groups, rest) →
  s = concat groups ++ rest ∧ Forall2 in_directive ds groups.
Proof.
  revert s groups. induction ds as [|d ds IH]; intros s groups; simpl.
  { intros [= <- <-]. split; [done|constructor]. }
  intros (alt & Halt & Hm)%first_some_Some.
  destruct (match_classes alt s) as [[txt s']|] eqn:Hcls; [|done]. simpl in Hm.
  destruct (regex_match ds s') as [[groups' fin]|] eqn:Hrest; [|done].
  simpl in Hm. injection Hm as <- <-.
  apply match_classes_inv in Hcls as [-> Hcls].
  destruct (IH _ _ Hrest) as [-> Hds].
  split; [simpl; by rewrite <-app_assoc|]. constructor; [by exists alt|done].
Qed.

(** What [strptime] accepts is the text of the groups, one after the
    other, and nothing else. *)
Lemma strptime_Ok_inv data format dt :
  strptime data format = Ok dt →
  ∃ ds groups,
    compile_format (list_ascii_of_string format) = Some ds ∧
    list_ascii_of_string data = concat groups ∧
    Forall2 in_directive ds groups ∧
    dt = set_fields ds groups defaults ∧ valid dt = true.
Proof.
  unfold strptime.
  destruct (compile_format _) as [ds|]; [|done].
  destruct (regex_match ds _) as [[groups rest]|] eqn:Hm; [|done].
  destruct rest; [|done]. destruct (valid _) eqn:Hv; [|done].
  intros [= <-]. apply regex_match_inv in Hm as [Hs Hds].
  rewrite app_nil_r in Hs. by exists ds, groups.
Qed.

Lemma strptime_raises data format e :
  strptime data format = Raise e → e = ValueError.
Proof.
  unfold strptime. repeat case_match; congruence.
Qed.

Lemma fraction_in_app pre c post :
  digit c = true → fraction_in (pre ++ "."%char :: c :: post) = true.
Proof.
  intros Hc. induction pre as [|x pre IH]; simpl.
  - by rewrite Hc.
  - rewrite IH. apply orb_true_r.
Qed.

Lemma fraction_in_point s : fraction_in s = true → "."%char ∈ s.
Proof.
  induction s as [|x s IH]; simpl; [done|].
  intros [[Hx%Ascii.eqb_eq _]%andb_true_iff|Hs%IH]%orb_true_iff.
  - subst. apply list_elem_of_here.
  - by apply list_elem_of_further.
Qed.

Lemma letter_point c : letter "." c = true → c = "."%char.
Proof. destruct c as [[] [] [] [] [] [] [] []]; vm_compute; congruence. Qed.

Lemma in_directive_f txt :
  in_directive Dir_f txt → ∃ c txt', txt = c :: txt' ∧ digit c = true.
Proof.
  intros (alt & Halt & Hcls). simpl in Halt.
  repeat (apply elem_of_cons in Halt as [->|Halt];
    [inversion Hcls; subst; eauto|]).
  by apply elem_of_nil in Halt.
Qed.

Lemma in_directive_Lit x txt :
  in_directive (Lit x) txt → ∃ c, txt = [c] ∧ letter x c = true.
Proof.
  intros (alt & Halt & Hcls). simpl in Halt.
  apply list_elem_of_singleton in Halt as ->.
  inversion Hcls as [|? c ? txt' ? Hnil]; subst. inversion Hnil; subst. eauto.
Qed.

(** The format with milliseconds accepts only texts with a fraction. *)
Lemma strptime_milliseconds_has_fraction data dt :
  strptime data date_format_with_milliseconds = Ok dt →
  has_fraction data = true.
Proof.
  intros (ds & groups & Hc & Hs & Hds & _)%strptime_Ok_inv.
  vm_compute in Hc. injection Hc as <-.
  apply (Forall2_app_inv_l _
    [Dir_Y; Lit "-"%char; Dir_m; Lit "-"%char; Dir_d; Lit "T"%char; Dir_H;
     Lit ":"%char; Dir_M; Lit ":"%char; Dir_S]
    [Lit "."%char; Dir_f; Lit "Z"%char]) in Hds
    as (before_point & from_point & _ & Hds & ->).
  apply Forall2_cons_inv_l in Hds as (point & from_f & Hpoint & Hds & ->).
  apply Forall2_cons_inv_l in Hds as (fraction & after_f & Hf & _ & ->).
  apply in_directive_Lit in Hpoint as (? & -> & ->%letter_point).
  apply in_directive_f in Hf as (c & fraction' & -> & Hc).
  unfold has_fraction. rewrite Hs, concat_app. by apply fraction_in_app.
Qed.

Lemma rejects_point_spec d txt :
  rejects_point d = true → in_directive d txt → "."%char ∉ txt.
Proof.
  intros Hd (alt & Halt & Hcls) Hin. unfold rejects_point in Hd.
  rewrite forallb_forall in Hd. apply list_elem_of_In, Hd in Halt.
  rewrite forallb_forall in Halt.
  induction Hcls as [|p c alt txt Hp Hcls IH].
  - by apply elem_of_nil in Hin.
  - apply elem_of_cons in Hin as [<-|Hin].
    + specialize (Halt p (or_introl eq_refl)). by rewrite Hp in Halt.
    + apply IH; [|done]. intros q Hq. apply Halt. by right.
Qed.

Lemma compile_DATE_FORMAT :
  compile_format (list_ascii_of_string DATE_FORMAT) =
    Some [Dir_Y; Lit "-"%char; Dir_m; Lit "-"%char; Dir_d; Lit "T"%char;
          Dir_H; Lit ":"%char; Dir_M; Lit ":"%char; Dir_S; Lit "Z"%char].
Proof. reflexivity. Qed.

(** The whole-second format accepts no text with a fraction. *)
Lemma strptime_seconds_no_fraction data dt :
  strptime data DATE_FORMAT = Ok dt → has_fraction data = false.
Proof.
  intros (ds & groups & Hc & Hs & Hds & _)%strptime_Ok_inv.
  apply not_true_is_false. intros Hin%fraction_in_point. rewrite Hs in Hin.
  rewrite compile_DATE_FORMAT in Hc. injection Hc as <-.
  apply list_elem_of_In, in_concat in Hin as (txt & Htxt & Hin).
  apply list_elem_of_In in Htxt, Hin.
  apply list_elem_of_lookup in Htxt as [i Hi].
  destruct (Forall2_lookup_r _ _ _ _ _ Hds Hi) as (d & Hd & Hdir).
  eapply rejects_point_spec; [|done..].
  apply list_elem_of_lookup_2 in Hd.
  repeat (apply elem_of_cons in Hd as [->|Hd]; [reflexivity|]).
  by apply elem_of_nil in Hd.
Qed.

(** *** Printing and parsing back *)

Lemma digit_char_spec n :
  digit (digit_char n) = true ∧ code (digit_char n) - 48 = n mod 10.
Proof.
  unfold digit_char.
  assert (0 <= n mod 10 < 10) as Hn by (apply Z.mod_pos_bound; lia).
  assert (n mod 10 = 0 ∨ n mod 10 = 1 ∨ n mod 10 = 2 ∨ n mod 10 = 3 ∨
          n mod 10 = 4 ∨ n mod 10 = 5 ∨ n mod 10 = 6 ∨ n mod 10 = 7 ∨
          n mod 10 = 8 ∨ n mod 10 = 9) as Hcases by lia.
  repeat destruct Hcases as [->|Hcases]; try rewrite Hcases; by vm_compute.
Qed.

Lemma int_of_snoc txt n :
  int_of (txt ++ [digit_char n]) = 10 * int_of txt + n mod 10.
Proof.
  unfold int_of. rewrite fold_left_app. simpl.
  destruct (digit_char_spec n) as [-> ->]. done.
Qed.

Lemma int_of_zero_padded width n :
  0 <= n < 10 ^ Z.of_nat width → int_of (zero_padded width n) = n.
Proof.
  revert n. induction width as [|w IH]; intros n Hn.
  { simpl in *. unfold int_of. simpl. lia. }
  simpl zero_padded. rewrite int_of_snoc.
  rewrite Nat2Z.inj_succ, Z.pow_succ_r in Hn by lia.
  rewrite IH.
  - pose proof (Z.div_mod n 10). lia.
  - split; [apply Z.div_pos; lia|]. apply Z.div_lt_upper_bound; lia.
Qed.

Lemma zero_padded_digits width n : Forall (λ c, digit c = true) (zero_padded width n).
Proof.
  revert n. induction width as [|w IH]; intros n; simpl; [constructor|].
  apply Forall_app. split; [done|].
  constructor; [apply digit_char_spec|constructor].
Qed.

Lemma zero_padded_length width n : length (zero_padded width n) = width.
Proof.
  revert n. induction width as [|w IH]; intros n; simpl; [done|].
  rewrite length_app, IH. simpl. lia.
Qed.

Lemma letter_refl c : letter c c = true.
Proof. unfold letter. apply Ascii.eqb_refl. Qed.

Lemma regex_match_Lit c ds rest groups fin :
  regex_match ds rest = Some (groups, fin) →
  regex_match (Lit c :: ds) (c :: rest) = Some ([c] :: groups, fin).
Proof. intros Hrest. simpl. rewrite letter_refl. simpl. by rewrite Hrest. Qed.

Lemma regex_match_Y y ds rest groups fin :
  regex_match ds rest = Some (groups, fin) →
  regex_match (Dir_Y :: ds) (zero_padded 4 y ++ rest)
    = Some (zero_padded 4 y :: groups, fin).
Proof.
  intros Hrest.
  pose proof (zero_padded_digits 4 y) as Hd.
  pose proof (zero_padded_length 4 y) as Hl.
  destruct (zero_padded 4 y) as [|c1 [|c2 [|c3 [|c4 [|]]]]]; try done.
  repeat (apply Forall_cons in Hd as [? Hd]).
  simpl. repeat match goal with H : digit _ = true |- _ => rewrite H; clear H end.
  simpl. by rewrite Hrest.
Qed.

Lemma regex_match_field d v ds rest groups fin :
  field_ok d v = true →
  regex_match ds rest = Some (groups, fin) →
  regex_match (d :: ds) (zero_padded 2 v ++ rest)
    = Some (zero_padded 2 v :: groups, fin).
Proof.
  intros Hok Hrest.
  assert (∃ n : nat, v = Z.of_nat n ∧ (n < 60)%nat) as (n & -> & Hn).
  { exists (Z.to_nat v). destruct d; simpl in Hok; try done; lia. }
  destruct d; try done;
    (do 60 (destruct n as [|n];
      [first
        [ discriminate Hok
        | let w := fresh "w" in
          set (w := zero_padded 2 _); vm_compute in w; subst w;
          simpl; rewrite Hrest; reflexivity ]|]); lia).
Qed.

Lemma valid_inv dt :
  valid dt = true →
  1 <= year dt <= 9999 ∧ 1 <= month dt <= 12 ∧
  1 <= day dt <= days_in_month (year dt) (month dt) ∧
  0 <= hour dt <= 23 ∧ 0 <= minute dt <= 59 ∧ 0 <= second dt <= 59 ∧
  0 <= microsecond dt <= 999999.
Proof. unfold valid. rewrite !andb_true_iff, !Z.leb_le. tauto. Qed.

Lemma days_in_month_bound y m : 28 <= days_in_month y m <= 31.
Proof. unfold days_in_month. repeat case_match; lia. Qed.

Lemma strftime_DATE_FORMAT `{Platform} dt :
  strftime dt DATE_FORMAT = Ok (string_of_list_ascii (seconds_text dt)).
Proof.
  unfold strftime. rewrite compile_DATE_FORMAT. reflexivity.
Qed.

(** A valid [datetime] printed in the whole-second format parses back to
    itself without its microseconds, provided the year is printed with four
    digits. *)
Lemma strptime_strftime `{Platform} dt :
  valid dt = true →
  normalize_century = true ∨ 1000 <= year dt →
  ∃ str, strftime dt DATE_FORMAT = Ok str ∧
         strptime str DATE_FORMAT = Ok (replace_microsecond dt 0).
Proof.
  intros Hvalid Hyear. eexists. split; [apply strftime_DATE_FORMAT|].
  pose proof (valid_inv dt Hvalid) as (Hy & Hm & Hd & HH & HM & HS & Hus).
  pose proof (days_in_month_bound (year dt) (month dt)).
  assert (year_text (year dt) = zero_padded 4 (year dt)) as Hytext.
  { unfold year_text. destruct Hyear as [->|?]; [done|].
    destruct normalize_century; [done|].
    repeat match goal with
    | |- context [?a <? ?b] => destruct (Z.ltb_spec a b); [lia|]
    end. done. }
  unfold strptime.
  rewrite compile_DATE_FORMAT, list_ascii_of_string_of_list_ascii.
  unfold seconds_text. rewrite Hytext.
  erewrite regex_match_Y; [|].
  2: { apply regex_match_Lit, regex_match_field; [apply andb_true_iff; lia|].
       apply regex_match_Lit, regex_match_field; [apply andb_true_iff; lia|].
       apply regex_match_Lit, regex_match_field; [apply andb_true_iff; lia|].
       apply regex_match_Lit, regex_match_field; [apply andb_true_iff; lia|].
       apply regex_match_Lit, regex_match_field; [apply andb_true_iff; lia|].
       apply regex_match_Lit. reflexivity. }
  cbn [set_fields set_field year month day hour minute second microsecond
       defaults].
  rewrite !int_of_zero_padded
    by (change (10 ^ _) with 100 || change (10 ^ _) with 10000; lia).
  unfold replace_microsecond.
  replace (valid _) with true; [done|].
  symmetry. unfold valid in *.
  cbn [year month day hour minute second microsecond].
  rewrite !andb_true_iff, !Z.leb_le in *. lia.
Qed.

Lemma zero_padded_no_point width n : "."%char ∉ zero_padded width n.
Proof.
  intros Hin.
  by apply (proj1 (Forall_forall _ _) (zero_padded_digits width n)) in Hin.
Qed.

(** What the whole-second format prints has no fraction. *)
Lemma seconds_text_no_fraction `{Platform} dt :
  has_fraction (string_of_list_ascii (seconds_text dt)) = false.
Proof.
  apply not_true_is_false. unfold has_fraction.
  rewrite list_ascii_of_string_of_list_ascii. intros Hin%fraction_in_point.
  assert ("."%char ∉ year_text (year dt)) as Hyear.
  { unfold year_text. repeat case_match; apply zero_padded_no_point. }
  unfold seconds_text in Hin.
  repeat (rewrite elem_of_app in Hin || rewrite elem_of_cons in Hin).
  destruct_or! Hin; try discriminate Hin; try done;
    first [by eapply zero_padded_no_point | by apply elem_of_nil in Hin].
Qed.

End Parsing.

(** ** Paging *)

Section Paging.

Context {client : Type}.
Variable request :
  client → string → string → Z → Z → result (list logging) * client.

Implicit Types (c : client) (acc res : list logging).

(** One turn of the [while] loop. *)
Lemma get_max_fetch_loop_step c from_date to_date acc offset n :
  get_max_fetch_loop request c from_date to_date acc offset n =
    if decide (n > 0) then
      match request c from_date to_date offset (Z.min n 1000) with
      | (Raise e, c') => (Raise e, c')
      | (Ok [], c') => (Ok acc, c')
      | (Ok res, c') =>
        get_max_fetch_loop request c' from_date to_date (acc ++ res)
          (offset + Z.of_nat (length res)) (n - Z.of_nat (length res))
      end
    else (Ok acc, c).
Proof.
  replace (Z.min n 1000) with (if n <? 1000 then n else 1000)
    by (destruct (Z.ltb_spec n 1000); lia).
  rewrite get_max_fetch_loop_equation_1.
  destruct (decide (n > 0)) as [Hn|Hn]; simpl; [|done].
  destruct (request c from_date to_date offset _) as [[[|r res]|e] c'];
    first [ rewrite get_max_fetch_loop_clause_1_clause_2_equation_1
          | rewrite get_max_fetch_loop_clause_1_clause_2_equation_2
          | rewrite get_max_fetch_loop_clause_1_clause_2_equation_3 ];
    reflexivity.
Qed.

(** Induction along the turns of the loop. *)
Lemma get_max_fetch_loop_ind from_date to_date
  (P : client → list logging → Z → Z → result (list logging) * client → Prop) :
  (∀ c acc offset n, ¬ n > 0 → P c acc offset n (Ok acc, c)) →
  (∀ c acc offset n e c', n > 0 →
     request c from_date to_date offset (Z.min n 1000) = (Raise e, c') →
     P c acc offset n (Raise e, c')) →
  (∀ c acc offset n c', n > 0 →
     request c from_date to_date offset (Z.min n 1000) = (Ok [], c') →
     P c acc offset n (Ok acc, c')) →
  (∀ c acc offset n res c' out, n > 0 → res ≠ [] →
     request c from_date to_date offset (Z.min n 1000) = (Ok res, c') →
     P c' (acc ++ res) (offset + Z.of_nat (length res))
       (n - Z.of_nat (length res)) out →
     P c acc offset n out) →
  ∀ c acc offset n,
    P c acc offset n
      (get_max_fetch_loop request c from_date to_date acc offset n).
Proof.
  intros Hstop Hraise Hempty Hpage c acc offset n.
  remember (Z.to_nat n) as k eqn:Hk. revert c acc offset n Hk.
  induction k as [k IH] using lt_wf_ind. intros c acc offset n ->.
  rewrite get_max_fetch_loop_step.
  destruct (decide (n > 0)) as [Hn|Hn]; [|by apply Hstop].
  destruct (request c from_date to_date offset (Z.min n 1000))
    as [[[|r res]|e] c'] eqn:Hreq; [by apply Hempty| |by apply Hraise].
  apply (Hpage c acc offset n (r :: res) c'); [done..|].
  eapply IH; [|done]. simpl length. lia.
Qed.

Lemma get_max_fetch_loop_length from_date to_date c acc offset n out c' :
  pages_within_limit request →
  get_max_fetch_loop request c from_date to_date acc offset n = (Ok out, c') →
  Z.of_nat (length out) <= Z.of_nat (length acc) + Z.max n 0.
Proof.
  intros Hlim. revert out c'.
  apply (get_max_fetch_loop_ind from_date to_date
    (λ c acc offset n r, ∀ out c', r = (Ok out, c') →
       Z.of_nat (length out) <= Z.of_nat (length acc) + Z.max n 0)).
  - intros c0 acc0 offset0 n0 Hn out c' [= <- <-]. lia.
  - intros c0 acc0 offset0 n0 e c0' Hn Hreq out c' [=].
  - intros c0 acc0 offset0 n0 c0' Hn Hreq out c' [= <- <-]. lia.
  - intros c0 acc0 offset0 n0 res c0' r Hn Hres Hreq IH out c'' ->.
    specialize (IH _ _ eq_refl). rewrite length_app in IH.
    apply Hlim in Hreq; lia.
Qed.

End Paging.

Section ScriptedPaging.

Lemma scripted_loop_paging from_date to_date max_fetch pages :
  ∀ log acc accumulated,
    get_max_fetch_loop Mock.get_activity_logging_request
      (Mock.mkClient pages log) from_date to_date acc
      accumulated (max_fetch - accumulated) =
    (rest ← (paging max_fetch accumulated pages).2; Ok (acc ++ rest),
     Mock.mkClient
       (drop (length (paging max_fetch accumulated pages).1) pages)
       (log ++ (paging max_fetch accumulated pages).1)).
Proof.
  induction pages as [|page pages IH]; intros log acc accumulated;
    rewrite get_max_fetch_loop_step;
    [|destruct page as [[|r res]|e]];
    cbn [paging Mock.get_activity_logging_request Mock.script Mock.calls];
    destruct (decide (max_fetch - accumulated > 0)) as [Hn|Hn];
    try (cbn; by rewrite ?app_nil_r).
  set (n := Z.of_nat (length (r :: res))).
  replace (max_fetch - accumulated - n) with (max_fetch - (accumulated + n))
    by lia.
  rewrite IH.
  destruct (paging max_fetch _ pages) as [calls [rest|e]]; cbn;
    by rewrite <-?app_assoc.
Qed.

End ScriptedPaging.

(** ** Normalisation and the invocation as a whole *)

Section Invocation.

Context `{Platform}.

Implicit Types (r : logging) (l raw cands batch : list logging)
  (lr : last_run).

Lemma remove_milliseconds_cons r l :
  remove_milliseconds_from_time_of_loggings (r :: l) =
    match r !! "requestTime" with
    | None => Raise TypeError
    | Some str =>
      dt ← strptime str date_format_with_milliseconds;
      rest ← remove_milliseconds_from_time_of_loggings l;
      Ok (truncated r dt :: rest)
    end.
Proof.
  cbn [remove_milliseconds_from_time_of_loggings].
  destruct (r !! "requestTime") as [str|]; [|done].
  destruct (strptime str _) as [dt|]; [|done].
  cbn [mbind result_bind]. by rewrite strftime_DATE_FORMAT.
Qed.

Lemma remove_milliseconds_inv l l' :
  remove_milliseconds_from_time_of_loggings l = Ok l' →
  Forall2 normalises_to l l'.
Proof.
  revert l'. induction l as [|r l IH]; intros l'.
  { intros [= <-]. constructor. }
  rewrite remove_milliseconds_cons.
  destruct (r !! "requestTime") as [str|] eqn:Hget; [|done].
  destruct (strptime str _) as [dt|] eqn:Hparse; [|done].
  destruct (remove_milliseconds_from_time_of_loggings l) as [rest|]; [|done].
  intros [= <-]. constructor; [|by apply IH]. by exists str, dt.
Qed.

Lemma remove_milliseconds_length l l' :
  remove_milliseconds_from_time_of_loggings l = Ok l' → length l' = length l.
Proof. intros Hl%remove_milliseconds_inv. symmetry. by eapply Forall2_length. Qed.

Lemma remove_milliseconds_total l :
  Forall (λ r, ∃ str dt, r !! "requestTime" = Some str ∧
                 strptime str date_format_with_milliseconds = Ok dt) l →
  ∃ l', remove_milliseconds_from_time_of_loggings l = Ok l'.
Proof.
  induction 1 as [|r l (str & dt & Hget & Hparse) _ [l' IH]]; [by eexists|].
  rewrite remove_milliseconds_cons, Hget, Hparse, IH. by eexists.
Qed.

(** The time the deduplication reads from a normalised record. *)
Lemma request_time_truncated r dt :
  valid dt = true →
  normalize_century = true ∨ 1000 <= year dt →
  normalized (truncated r dt) ∧
  request_time (truncated r dt) = replace_microsecond dt 0.
Proof.
  intros Hvalid Hyear.
  destruct (strptime_strftime dt Hvalid Hyear) as (str & Hprint & Hparse).
  rewrite strftime_DATE_FORMAT in Hprint. injection Hprint as <-.
  unfold normalized, request_time, truncated.
  rewrite lookup_insert_eq, Hparse. eauto.
Qed.

Lemma strptime_valid data format dt :
  strptime data format = Ok dt → valid dt = true.
Proof. by intros (? & ? & _ & _ & _ & _ & ?)%strptime_Ok_inv. Qed.

Lemma get_from_date_Ok lr first_fetch :
  get_from_date lr first_fetch = Ok (from_date lr first_fetch).
Proof. unfold get_from_date. by rewrite strftime_DATE_FORMAT. Qed.

Lemma remove_duplicated_inv l lr time_to_check batch ids :
  remove_duplicated_activity_logging l lr time_to_check = Ok (batch, ids) →
  ∃ time_to_check' seen,
    remove_duplicated_loop l l time_to_check (fetched_set lr)
      = Ok (batch, time_to_check', seen) ∧
    ids = elements seen.
Proof.
  unfold remove_duplicated_activity_logging.
  destruct (remove_duplicated_loop _ _ _ _) as [[[out ttc'] seen]|]; [|done].
  simpl. intros [= <- <-]. eauto.
Qed.

Lemma set_last_run_inv cands lr from batch lr' :
  set_last_run cands lr from = Ok (batch, lr') →
  ∃ time_to_check' seen,
    remove_duplicated_loop cands cands from (fetched_set lr)
      = Ok (batch, time_to_check', seen) ∧
    lr' = next_run lr batch seen.
Proof.
  unfold set_last_run.
  destruct (remove_duplicated_activity_logging cands lr from)
    as [[out ids]|] eqn:Hdedup; [|done].
  apply remove_duplicated_inv in Hdedup as (ttc' & seen & Hloop & ->).
  simpl. unfold next_run. intros Heq. exists ttc', seen.
  destruct (last out) eqn:Hlast; injection Heq as <- <-; by rewrite Hlast.
Qed.

Section Client.

Context {client : Type}.
Variable request :
  client → string → string → Z → Z → result (list logging) * client.

Lemma fetch_activity_logging_unfold c max_fetch first_fetch lr now :
  fetch_activity_logging request c max_fetch first_fetch lr now =
    match get_max_fetch_activity_logging request c max_fetch
            (from_date lr first_fetch) (to_date now) with
    | (Raise e, c') => (Raise e, c')
    | (Ok raw, c') =>
      (cands ← remove_milliseconds_from_time_of_loggings raw;
       set_last_run cands lr (from_date lr first_fetch), c')
    end.
Proof.
  unfold fetch_activity_logging.
  by rewrite get_from_date_Ok, strftime_DATE_FORMAT.
Qed.

Lemma fetch_activity_logging_inv c max_fetch first_fetch lr now batch lr' c' :
  fetch_activity_logging request c max_fetch first_fetch lr now
    = (Ok (batch, lr'), c') →
  ∃ raw cands time_to_check' seen,
    get_max_fetch_activity_logging request c max_fetch
      (from_date lr first_fetch) (to_date now) = (Ok raw, c') ∧
    remove_milliseconds_from_time_of_loggings raw = Ok cands ∧
    remove_duplicated_loop cands cands (from_date lr first_fetch)
      (fetched_set lr) = Ok (batch, time_to_check', seen) ∧
    lr' = next_run lr batch seen.
Proof.
  rewrite fetch_activity_logging_unfold.
  destruct (get_max_fetch_activity_logging _ _ _ _ _) as [[raw|e] c''];
    [|done].
  intros [= Hset <-].
  destruct (remove_milliseconds_from_time_of_loggings raw) as [cands|] eqn:Hn;
    [|done].
  apply set_last_run_inv in Hset as (ttc' & seen & ? & ?).
  eauto 10.
Qed.

End Client.

End Invocation.

Section LoopInversion.

Implicit Types (r : logging) (copy cur out : list logging).

Lemma list_remove_sublist (x : logging) (l l' : list logging) :
  list_remove x l = Ok l' → l' `sublist_of` l.
Proof.
  revert l'. induction l as [|y l IH]; intros l'; simpl; [done|].
  case_decide; [intros [= <-]; by apply sublist_cons|].
  destruct (list_remove x l) as [l''|]; [|done]. simpl. intros [= <-].
  by apply sublist_skip, IH.
Qed.

(** What a run of the loop that did not raise says about its input. *)
Lemma remove_duplicated_loop_inv copy : ∀ cur time_to_check s out ttc' s',
  remove_duplicated_loop copy cur time_to_check s = Ok (out, ttc', s') →
  Forall normalized copy ∧ out `sublist_of` cur ∧
  (copy ≠ [] → ∃ t, strptime time_to_check DATE_FORMAT = Ok t).
Proof.
  induction copy as [|r copy IH]; intros cur ttc s out ttc' s'; simpl.
  { intros [= <- <- <-]. done. }
  destruct (r !! "requestTime") as [str|] eqn:Hget; [|done].
  destruct (strptime str DATE_FORMAT) as [t|] eqn:Hstr; [|done]. simpl.
  destruct (strptime ttc DATE_FORMAT) as [t0|] eqn:Httc; [|done]. simpl.
  assert (normalized r) as Hr by by exists str, t.
  destruct (gt t t0).
  - intros (? & ? & _)%IH. split_and!; eauto.
  - case_decide.
    + destruct (list_remove r cur) as [cur'|] eqn:Hrm; [|done]. simpl.
      intros (? & ? & _)%IH. apply list_remove_sublist in Hrm.
      split_and!; eauto. by etrans.
    + intros (? & ? & _)%IH. split_and!; eauto.
Qed.

End LoopInversion.

(** ** Lemmas for the claims *)

Section ClaimLemmas.

Implicit Types (r : logging) (l raw cands batch : list logging)
  (lr : last_run).

Lemma paging_page max_fetch accumulated (page : list logging) pages :
  max_fetch - accumulated > 0 → page ≠ [] →
  paging max_fetch accumulated (Ok page :: pages) =
    ((accumulated, Z.min (max_fetch - accumulated) 1000)
       :: (paging max_fetch (accumulated + Z.of_nat (length page)) pages).1,
     rest ← (paging max_fetch (accumulated + Z.of_nat (length page)) pages).2;
     Ok (page ++ rest)).
Proof.
  intros Hpos Hpage. destruct page as [|r res]; [done|].
  cbn [paging]. rewrite decide_True by done.
  by destruct (paging _ _ pages).
Qed.

Lemma paging_done max_fetch accumulated pages :
  ¬ max_fetch - accumulated > 0 →
  paging max_fetch accumulated pages = ([], Ok []).
Proof.
  intros Hpos. destruct pages as [|[[|r res]|e] pages]; cbn [paging];
    by rewrite decide_False.
Qed.

(** What the facts about the pass say of a run of the loop. *)
Lemma remove_duplicated_loop_Ok cands time_to_check t s batch ttc' seen :
  strptime time_to_check DATE_FORMAT = Ok t →
  remove_duplicated_loop cands cands time_to_check s = Ok (batch, ttc', seen) →
  Forall normalized cands ∧
  seen = final_seen t s cands ∧
  batch ≡ₚ kept_records t s cands ∧
  batch `sublist_of` cands.
Proof.
  intros Hparse Hloop.
  destruct (remove_duplicated_loop_inv _ _ _ _ _ _ _ Hloop) as (Hnorm & _ & _).
  destruct (remove_duplicated_loop_pass cands cands [] time_to_check t s)
    as (out & ttc'' & Hloop' & _ & Hperm & Hsub & _); [done..|].
  rewrite Hloop in Hloop'. by injection Hloop' as <- <- <-.
Qed.

Lemma fetched_set_next_run lr batch seen z :
  last batch = Some z → fetched_set (next_run lr batch seen) = seen.
Proof.
  intros Hlast. unfold next_run, fetched_set. rewrite Hlast. simpl.
  apply list_to_set_elements_L.
Qed.

Lemma from_date_next_run `{Platform} lr batch seen z first_fetch :
  last batch = Some z → normalized z →
  strptime (from_date (next_run lr batch seen) first_fetch) DATE_FORMAT
    = Ok (request_time z).
Proof.
  intros Hlast (str & Hget & Hparse)%normalized_request_time.
  unfold next_run, from_date. rewrite Hlast. simpl. by rewrite Hget.
Qed.

Lemma last_elem (l : list logging) z : last l = Some z → z ∈ l.
Proof. intros [l' ->]%last_Some. set_solver. Qed.

End ClaimLemmas.

(** * The claims *)

Section Claims.

Implicit Types (r : logging) (l raw cands batch : list logging)
  (lr : last_run).


(** C2. Two invocations, the second from the last run the first returned:
    when the normalised records of each are in non-decreasing order of
    request time and those of the second are not before its last fetch time,
    no record of the first batch and record of the second batch have both
    the same request time and the same id. *)
Theorem no_duplicate_delivery `{Platform} {client : Type}
  (request : client → string → string → Z → Z → result (list logging) * client)
  c1 c1' max_fetch1 first_fetch1 lr now1 raw1 cands1 batch1 lr1
  c2 c2' max_fetch2 first_fetch2 now2 raw2 cands2 batch2 lr2 t1 :
  get_max_fetch_activity_logging request c1 max_fetch1
    (from_date lr first_fetch1) (to_date now1) = (Ok raw1, c1') →
  remove_milliseconds_from_time_of_loggings raw1 = Ok cands1 →
  non_decreasing cands1 →
  fetch_activity_logging request c1 max_fetch1 first_fetch1 lr now1
    = (Ok (batch1, lr1), c1') →
  get_max_fetch_activity_logging request c2 max_fetch2
    (from_date lr1 first_fetch2) (to_date now2) = (Ok raw2, c2') →
  remove_milliseconds_from_time_of_loggings raw2 = Ok cands2 →
  strptime (from_date lr1 first_fetch2) DATE_FORMAT = Ok t1 →
  non_decreasing cands2 → not_before t1 cands2 →
  fetch_activity_logging request c2 max_fetch2 first_fetch2 lr1 now2
    = (Ok (batch2, lr2), c2') →
  ∀ r1 r2, r1 ∈ batch1 → r2 ∈ batch2 →
    request_time r1 = request_time r2 → task_id r1 ≠ task_id r2.
Proof.
  intros Hraw1 Hcands1 Hsort1 Hfetch1 Hraw2 Hcands2 Ht1 Hsort2 Hge2 Hfetch2
    r1 r2 Hr1 Hr2 Htime.
  apply fetch_activity_logging_inv in Hfetch1
    as (raw1' & cands1' & ttc1 & seen1 & Hraw1' & Hcands1' & Hloop1 & ->).
  rewrite Hraw1 in Hraw1'. injection Hraw1' as <-.
  rewrite Hcands1 in Hcands1'. injection Hcands1' as <-.
  apply fetch_activity_logging_inv in Hfetch2
    as (raw2' & cands2' & ttc2 & seen2 & Hraw2' & Hcands2' & Hloop2 & _).
  rewrite Hraw2 in Hraw2'. injection Hraw2' as <-.
  rewrite Hcands2 in Hcands2'. injection Hcands2' as <-.
  destruct (remove_duplicated_loop_inv _ _ _ _ _ _ _ Hloop1)
    as (_ & Hsub1 & [t0 Ht0]).
  { intros ->. apply sublist_nil_r in Hsub1. subst. by apply elem_of_nil in Hr1. }
  destruct (remove_duplicated_loop_Ok _ _ _ _ _ _ _ Ht0 Hloop1)
    as (Hnorm1 & -> & Hperm1 & _).
  destruct (last batch1) as [z|] eqn:Hlast.
  2: { apply last_None in Hlast. subst. by apply elem_of_nil in Hr1. }
  assert (normalized z) as Hz.
  { eapply (proj1 (Forall_forall _ _) Hnorm1), elem_of_sublist; [|done].
    by apply last_elem. }
  pose proof (from_date_next_run lr batch1
    (final_seen t0 (fetched_set lr) cands1) z first_fetch2 Hlast Hz) as Hz1.
  rewrite Ht1 in Hz1. injection Hz1 as ->.
  erewrite fetched_set_next_run in Hloop2 by done.
  destruct (remove_duplicated_loop_Ok _ _ _ _ _ _ _ Ht1 Hloop2)
    as (_ & _ & Hperm2 & Hsub2).
  assert (non_decreasing batch1) as Hsorted by by eapply non_decreasing_sublist.
  assert (request_time r1 = request_time z) as Hr1z.
  { apply dt_le_antisym.
    - by apply (non_decreasing_last batch1).
    - rewrite Htime. apply (proj1 (Forall_forall _ _) Hge2).
      by eapply elem_of_sublist. }
  intros Hid.
  eapply (kept_at_boundary_fresh (request_time z)
            (final_seen t0 (fetched_set lr) cands1) cands2 r2);
    [done|done|by rewrite <-Hperm2|congruence|].
  rewrite <-Hid. apply final_seen_latest; [by rewrite <-Hperm1|].
  intros r' Hr'. rewrite Hr1z. apply (non_decreasing_last batch1); [done..|].
  by rewrite Hperm1.
Qed.

(** C3. From the cursor with last fetch time 2024-01-01T00:00:00Z and seen
    ids {A}, records A and B at 2024-01-01T00:00:00Z and C at
    2024-01-01T00:00:05Z, in that order, give back B and C, and the cursor
    with last fetch time 2024-01-01T00:00:05Z and seen ids {C}: both for the
    steps after normalisation (lines 240 to 249), on the records in whole
    seconds, and for the invocation as a whole, on the records as the vendor
    writes them, with a fraction. *)
Theorem boundary_scenario `{Platform} (first_fetch now : datetime) :
  let cursor :=
    mkLastRun (Some "2024-01-01T00:00:00Z") (Some [Some "A"]) in
  let cursor' :=
    mkLastRun (Some "2024-01-01T00:00:05Z") (Some [Some "C"]) in
  let kept := [Mock.record "B" "2024-01-01T00:00:00Z";
               Mock.record "C" "2024-01-01T00:00:05Z"] in
  set_last_run
    [Mock.record "A" "2024-01-01T00:00:00Z";
     Mock.record "B" "2024-01-01T00:00:00Z";
     Mock.record "C" "2024-01-01T00:00:05Z"]
    cursor "2024-01-01T00:00:00Z" = Ok (kept, cursor') ∧
  (fetch_activity_logging Mock.get_activity_logging_request
     (Mock.returning
        [Ok [Mock.record "A" "2024-01-01T00:00:00.000000Z";
             Mock.record "B" "2024-01-01T00:00:00.000000Z";
             Mock.record "C" "2024-01-01T00:00:05.000000Z"]])
     1000 first_fetch cursor now).1 = Ok (kept, cursor').
Proof.
  split;
    [lazymatch goal with |- _ = ?b => vm_cast_no_check (@eq_refl _ b) end|].
  rewrite fetch_activity_logging_unfold.
  unfold get_max_fetch_activity_logging, Mock.returning.
  change 1000 with (1000 - 0) at 1. rewrite scripted_loop_paging.
  destruct H as [[|]];
    lazymatch goal with |- _ = ?b => vm_cast_no_check (@eq_refl _ b) end.
Qed.

(** C4. When the records of an invocation, once normalised, are in
    non-decreasing order of request time and none is before the last fetch
    time of the cursor, the last fetch time of the new cursor is not before
    the old one, and every id of its seen ids is the id of a returned record
    at the new last fetch time exactly, or, the time not having moved, an id
    of the old cursor: if the ids of the old cursor belong to records of the
    history at its last fetch time, so do those of the new cursor, with the
    returned records added to the history. *)
Theorem cursor_invariant_preserved `{Platform} {client : Type}
  (request : client → string → string → Z → Z → result (list logging) * client)
  c c' max_fetch first_fetch lr now raw cands batch lr' t :
  get_max_fetch_activity_logging request c max_fetch
    (from_date lr first_fetch) (to_date now) = (Ok raw, c') →
  remove_milliseconds_from_time_of_loggings raw = Ok cands →
  strptime (from_date lr first_fetch) DATE_FORMAT = Ok t →
  non_decreasing cands → not_before t cands →
  fetch_activity_logging request c max_fetch first_fetch lr now
    = (Ok (batch, lr'), c') →
  ∃ t',
    strptime (from_date lr' first_fetch) DATE_FORMAT = Ok t' ∧
    le t t' ∧
    (∀ i, i ∈ fetched_set lr' →
       (∃ r, r ∈ batch ∧ task_id r = i ∧ request_time r = t') ∨
       (t' = t ∧ i ∈ fetched_set lr)) ∧
    (∀ history,
       cursor_invariant t (fetched_set lr) history →
       cursor_invariant t' (fetched_set lr') (history ++ batch)).
Proof.
  intros Hraw Hcands Hparse Hsort Hge Hfetch.
  apply fetch_activity_logging_inv in Hfetch
    as (raw' & cands' & ttc' & seen & Hraw' & Hcands' & Hloop & ->).
  rewrite Hraw in Hraw'. injection Hraw' as <-.
  rewrite Hcands in Hcands'. injection Hcands' as <-.
  destruct (remove_duplicated_loop_Ok _ _ _ _ _ _ _ Hparse Hloop)
    as (Hnorm & -> & Hperm & Hsub).
  set (s := fetched_set lr) in *.
  assert (∃ t',
    strptime (from_date (next_run lr batch (final_seen t s cands)) first_fetch)
      DATE_FORMAT = Ok t' ∧
    le t t' ∧
    ∀ i, i ∈ fetched_set (next_run lr batch (final_seen t s cands)) →
       (∃ r, r ∈ batch ∧ task_id r = i ∧ request_time r = t') ∨
       (t' = t ∧ i ∈ s)) as (t' & Ht' & Hle & Hids).
  { destruct (last batch) as [z|] eqn:Hlast.
    - assert (z ∈ batch) as Hz by by apply last_elem.
      assert (z ∈ cands) as Hz' by by eapply elem_of_sublist.
      assert (request_time z = final_time t s cands) as Hfinal.
      { apply dt_le_antisym; [by apply final_time_upper_bound|].
        destruct (kept_reaches_final_time t s cands) as (r & Hr & <-);
          [done..| |].
        { intros Hnil. rewrite Hnil in Hperm.
          apply Permutation_nil_r in Hperm. by subst. }
        rewrite <-Hperm in Hr.
        eapply (non_decreasing_last batch); [|done..].
        by eapply non_decreasing_sublist. }
      exists (request_time z). split_and!.
      + apply from_date_next_run; [done|].
        by eapply (proj1 (Forall_forall _ _) Hnorm).
      + rewrite Hfinal. apply final_time_le.
      + intros i. erewrite fetched_set_next_run by done. rewrite Hfinal.
        intros [[Hi Ht]|(r & Hr & Hid & Hr')]%final_seen_at_final_time;
          [by right|left|done..].
        exists r. by rewrite Hperm.
    - exists t. unfold next_run. rewrite Hlast.
      split_and!; [done|apply dt_le_refl|]. intros i Hi. by right. }
  exists t'. split_and!; [done..|].
  intros history Hinv i [(r & Hr & Hid & Htime)|[-> Hi]]%Hids.
  - exists r. split_and!; [|done..]. apply elem_of_app. by right.
  - destruct (Hinv i Hi) as (r & Hr & Hid & Htime).
    exists r. split_and!; [|done..]. apply elem_of_app. by left.
Qed.

(** C5. When [max_fetch] is positive and no page is larger than the limit it
    was asked with, an invocation returns at most [max_fetch] records. *)
Theorem cap_respected `{Platform} {client : Type}
  (request : client → string → string → Z → Z → result (list logging) * client)
  c c' max_fetch first_fetch lr now batch lr' :
  0 < max_fetch →
  pages_within_limit request →
  fetch_activity_logging request c max_fetch first_fetch lr now
    = (Ok (batch, lr'), c') →
  Z.of_nat (length batch) <= max_fetch.
Proof.
  intros Hpos Hlim
    (raw & cands & ttc' & seen & Hraw & Hcands & Hloop & _)%fetch_activity_logging_inv.
  apply get_max_fetch_loop_length in Hraw; [|done].
  apply remove_milliseconds_length in Hcands.
  apply remove_duplicated_loop_inv in Hloop as (_ & Hsub%sublist_length & _).
  simpl in Hraw. lia.
Qed.

(** C6. The loop asks for a page only while [logging_to_fetch], the number
    of records still wanted, is positive; it asks for
    [min logging_to_fetch 1000] records at the current offset; an error or
    an empty page ends it, and any other page is appended, moves the offset
    forward by its length and lowers [logging_to_fetch] by as much. Against
    any script of answers the calls are therefore those of [paging]: while
    the accumulated count is below [max_fetch], a call for
    [min (max_fetch - accumulated) 1000] records at the offset
    [accumulated], up to the first empty page. With [max_fetch = 1500] and
    pages of 1000, 500 and 1000 records there are two calls, at offsets 0 and
    1000, and the 1500 records of the first two pages are handed on. *)
Theorem pagination_discipline (from_date to_date : string) :
  (∀ (client : Type)
     (request : client → string → string → Z → Z
                → result (list logging) * client)
     c activity_loggings offset logging_to_fetch,
     get_max_fetch_loop request c from_date to_date activity_loggings offset
       logging_to_fetch =
     if decide (logging_to_fetch > 0) then
       match request c from_date to_date offset
               (Z.min logging_to_fetch 1000) with
       | (Raise e, c') => (Raise e, c')
       | (Ok [], c') => (Ok activity_loggings, c')
       | (Ok res, c') =>
         get_max_fetch_loop request c' from_date to_date
           (activity_loggings ++ res) (offset + Z.of_nat (length res))
           (logging_to_fetch - Z.of_nat (length res))
       end
     else (Ok activity_loggings, c)) ∧
  (∀ max_fetch pages,
     get_max_fetch_activity_logging Mock.get_activity_logging_request
       (Mock.returning pages) max_fetch from_date to_date =
     ((paging max_fetch 0 pages).2,
      Mock.mkClient (drop (length (paging max_fetch 0 pages).1) pages)
        (paging max_fetch 0 pages).1)) ∧
  (∀ p1 p2 p3 : list logging,
     length p1 = 1000%nat → length p2 = 500%nat → length p3 = 1000%nat →
     get_max_fetch_activity_logging Mock.get_activity_logging_request
       (Mock.returning [Ok p1; Ok p2; Ok p3]) 1500 from_date to_date =
     (Ok (p1 ++ p2), Mock.mkClient [Ok p3] [(0, 1000); (1000, 500)]) ∧
     length (p1 ++ p2) = 1500%nat).
Proof.
  split; [intros; apply get_max_fetch_loop_step|].
  assert (∀ max_fetch pages,
     get_max_fetch_activity_logging Mock.get_activity_logging_request
       (Mock.returning pages) max_fetch from_date to_date =
     ((paging max_fetch 0 pages).2,
      Mock.mkClient (drop (length (paging max_fetch 0 pages).1) pages)
        (paging max_fetch 0 pages).1)) as Hgeneral.
  { intros max_fetch pages.
    unfold get_max_fetch_activity_logging, Mock.returning.
    replace max_fetch with (max_fetch - 0) at 1 by lia.
    rewrite scripted_loop_paging. f_equal.
    by destruct (paging max_fetch 0 pages).2. }
  split; [done|]. intros p1 p2 p3 H1 H2 H3.
  split; [|rewrite length_app; lia].
  rewrite Hgeneral.
  rewrite (paging_page 1500 0 p1) by (by destruct p1 || lia).
  rewrite H1. change (0 + Z.of_nat 1000) with 1000.
  rewrite (paging_page 1500 1000 p2) by (by destruct p2 || lia).
  rewrite H2. change (1000 + Z.of_nat 500) with 1500.
  rewrite (paging_done 1500 1500) by lia.
  cbn. by rewrite app_nil_r.
Qed.

(** C7. When the first page of an invocation comes back empty, the
    invocation returns no records and the last run it was given, with no
    field changed. *)
Theorem empty_fetch_keeps_last_run `{Platform} {client : Type}
  (request : client → string → string → Z → Z → result (list logging) * client)
  c c' max_fetch first_fetch lr now :
  max_fetch > 0 →
  request c (from_date lr first_fetch) (to_date now) 0 (Z.min max_fetch 1000)
    = (Ok [], c') →
  fetch_activity_logging request c max_fetch first_fetch lr now
    = (Ok ([], lr), c').
Proof.
  intros Hpos Hreq. rewrite fetch_activity_logging_unfold.
  unfold get_max_fetch_activity_logging.
  rewrite get_max_fetch_loop_step, decide_True, Hreq by done. done.
Qed.

(** C8. Every record whose request time carries a fraction of a second is
    rewritten before the deduplication in the whole-second format, which
    prints no fraction, and the time the deduplication reads back from it is
    the time of the record with its microseconds set to zero: the fraction
    is cut off, the seconds are never rounded up. (A year below 1000 reads
    back only where the C library prints it with four digits.) A request
    time 2024-01-01T00:00:00.999000Z becomes 2024-01-01T00:00:00Z. *)
Theorem normalisation_truncates `{Platform} :
  (∀ l,
     Forall (λ r, ∃ str dt,
       r !! "requestTime" = Some str ∧
       strptime str date_format_with_milliseconds = Ok dt) l →
     ∃ l',
       remove_milliseconds_from_time_of_loggings l = Ok l' ∧
       Forall2 (λ r r', ∃ str dt,
         r !! "requestTime" = Some str ∧
         strptime str date_format_with_milliseconds = Ok dt ∧
         r' = truncated r dt ∧
         has_fraction (string_of_list_ascii (seconds_text dt)) = false ∧
         (normalize_century = true ∨ 1000 <= year dt →
          normalized r' ∧ request_time r' = replace_microsecond dt 0)) l l') ∧
  (∀ id,
     remove_milliseconds_from_time_of_loggings
       [Mock.record id "2024-01-01T00:00:00.999000Z"]
     = Ok [Mock.record id "2024-01-01T00:00:00Z"]).
Proof.
  split; [|intros id; destruct H as [[|]]; vm_compute; reflexivity].
  intros l Hl.
  destruct (remove_milliseconds_total l Hl) as [l' Hl'].
  exists l'. split; [done|].
  apply remove_milliseconds_inv in Hl'. clear Hl.
  induction Hl' as [|r r' l l' (str & dt & Hget & Hparse & ->) _ IH];
    constructor; [|done].
  exists str, dt.
  split_and!; [done..|apply seconds_text_no_fraction|].
  intros Hyear. eapply request_time_truncated; eauto using strptime_valid.
Qed.

(** C9, as amended. With [max_fetch <= 0] no page is asked for (the client
    is left as it was) and the invocation succeeds with no records and the
    last run unchanged; nothing checks the configuration. *)
Theorem nonpositive_max_fetch_fetches_nothing `{Platform} {client : Type}
  (request : client → string → string → Z → Z → result (list logging) * client)
  c max_fetch first_fetch lr now :
  max_fetch <= 0 →
  fetch_activity_logging request c max_fetch first_fetch lr now
    = (Ok ([], lr), c).
Proof.
  intros Hmax. rewrite fetch_activity_logging_unfold.
  unfold get_max_fetch_activity_logging.
  rewrite get_max_fetch_loop_step, decide_False by lia. done.
Qed.

(** C10. Normalisation parses the request time against the format with a
    fraction only. When a fetched record has a request time without a
    fraction, as every time in whole-second form is, [strptime] raises
    [ValueError], normalisation raises, and the invocation ends with that
    error before any deduplication; when normalisation succeeds, every
    record had a request time with a point and a digit after it. *)
Theorem normalisation_needs_fraction `{Platform} l r str :
  r ∈ l → r !! "requestTime" = Some str →
  (∀ l', remove_milliseconds_from_time_of_loggings l = Ok l' →
         has_fraction str = true) ∧
  ((∃ t, strptime str DATE_FORMAT = Ok t) → has_fraction str = false) ∧
  (has_fraction str = false →
     strptime str date_format_with_milliseconds = Raise ValueError ∧
     raises (remove_milliseconds_from_time_of_loggings l) ∧
     (∀ (client : Type)
        (request : client → string → string → Z → Z
                   → result (list logging) * client)
        c c' max_fetch first_fetch lr now,
        get_max_fetch_activity_logging request c max_fetch
          (from_date lr first_fetch) (to_date now) = (Ok l, c') →
        raises
          (fetch_activity_logging request c max_fetch first_fetch lr now).1)).
Proof.
  intros Hr Hget.
  assert (∀ l', remove_milliseconds_from_time_of_loggings l = Ok l' →
                has_fraction str = true) as Hsucc.
  { intros l' Hl'%remove_milliseconds_inv.
    apply list_elem_of_lookup in Hr as [i Hi].
    destruct (Forall2_lookup_l _ _ _ _ _ Hl' Hi)
      as (r' & _ & str' & dt & Hget' & Hparse & _).
    rewrite Hget in Hget'. injection Hget' as <-.
    by eapply strptime_milliseconds_has_fraction. }
  split_and!; [done|intros [t Ht]; by eapply strptime_seconds_no_fraction|].
  intros Hno.
  assert (raises (remove_milliseconds_from_time_of_loggings l)) as Hraises.
  { destruct (remove_milliseconds_from_time_of_loggings l) as [l'|];
      [|done]. specialize (Hsucc l' eq_refl). congruence. }
  split_and!; [|done|].
  - destruct (strptime str date_format_with_milliseconds) as [dt|e] eqn:Hparse.
    + apply strptime_milliseconds_has_fraction in Hparse. congruence.
    + by apply strptime_raises in Hparse as ->.
  - intros client request c c' max_fetch first_fetch lr now Hraw.
    rewrite fetch_activity_logging_unfold, Hraw. simpl.
    by destruct (remove_milliseconds_from_time_of_loggings l).
Qed.

End Claims.

(** * Further properties of the collector *)

(** ** More on the boundary pass *)

Section BoundaryPassFurther.

Implicit Types (t : datetime) (s : gset logging_id) (r : logging)
  (l : list logging).

(** A record is dropped only for its id: the id is in the initial set or is
    the id of a kept record. *)
Lemma boundary_pass_id_covered t s l r :
  r ∈ l →
  task_id r ∈ s ∨ ∃ r', r' ∈ kept_records t s l ∧ task_id r' = task_id r.
Proof.
  revert t s. induction l as [|x l IH]; intros t s Hr.
  { by apply elem_of_nil in Hr. }
  apply elem_of_cons in Hr.
  destruct (boundary_pass_cases t s x l)
    as [(_ & -> & _)|[(_ & Hin & -> & _)|(_ & _ & -> & _)]].
  - right. destruct Hr as [->|Hr]; [exists x; split; [left|done]|].
    destruct (IH (request_time x) {[task_id x]} Hr)
      as [Hid%elem_of_singleton|(r' & Hr' & Hid)].
    + exists x. split; [left|done].
    + exists r'. split; [by right|done].
  - destruct Hr as [->|Hr]; [by left|]. by apply IH.
  - destruct Hr as [->|Hr]; [right; exists x; split; [left|done]|].
    destruct (IH t ({[task_id x]} ∪ s) Hr) as [Hid|(r' & Hr' & Hid)].
    + apply elem_of_union in Hid as [Hid%elem_of_singleton|Hid]; [|by left].
      right. exists x. split; [left|done].
    + right. exists r'. split; [by right|done].
Qed.

(** While the running time stays, the set only grows. *)
Lemma final_time_fixed_seen t s l :
  final_time t s l = t → s ⊆ final_seen t s l.
Proof.
  revert s. induction l as [|x l IH]; intros s Ht; [done|].
  destruct (boundary_pass_cases t s x l)
    as [(Hb & _ & Hf & _)|[(_ & _ & _ & Hf & ->)|(_ & _ & _ & Hf & ->)]];
    rewrite Hf in Ht.
  - exfalso.
    pose proof (final_time_le (request_time x) {[task_id x]} l) as Hle.
    rewrite Ht in Hle. by apply Hle.
  - by apply IH.
  - apply IH in Ht. set_solver.
Qed.

(** The id of every record at the final time is in the final set. *)
Lemma final_seen_all_at_final_time t s l r :
  r ∈ l → request_time r = final_time t s l → task_id r ∈ final_seen t s l.
Proof.
  revert t s. induction l as [|x l IH]; intros t s Hr Ht.
  { by apply elem_of_nil in Hr. }
  apply elem_of_cons in Hr.
  destruct (boundary_pass_cases t s x l)
    as [(Hb & _ & Hf & Hs)|[(Hle & Hin & _ & Hf & Hs)|(Hle & _ & _ & Hf & Hs)]];
    rewrite Hf in Ht; rewrite Hs;
    (destruct Hr as [->|Hr]; [|by apply IH]).
  - apply final_time_fixed_seen; [done|]. by apply elem_of_singleton.
  - apply final_time_fixed_seen; [|done].
    apply dt_le_antisym; [rewrite <-Ht; done|apply final_time_le].
  - apply final_time_fixed_seen; [|set_solver].
    apply dt_le_antisym; [rewrite <-Ht; done|apply final_time_le].
Qed.

(** In non-decreasing input a kept record that is not later than the running
    time has an id outside the running set. *)
Lemma kept_not_later_fresh t s l r :
  non_decreasing l →
  r ∈ kept_records t s l → le (request_time r) t → task_id r ∉ s.
Proof.
  revert s. induction l as [|x l IH]; intros s Hsort Hr Hle.
  { by apply elem_of_nil in Hr. }
  apply non_decreasing_cons in Hsort as [Hsort Hx].
  destruct (boundary_pass_cases t s x l)
    as [(Hb & Hkept & _)|[(_ & _ & Hkept & _)|(_ & Hfresh & Hkept & _)]];
    rewrite Hkept in Hr.
  - exfalso. apply elem_of_cons in Hr as [->|Hr]; [by apply Hle|].
    apply kept_records_elem in Hr.
    apply (proj1 (Forall_forall _ _) Hx) in Hr.
    apply (dt_le_trans _ _ _ Hr) in Hle. by apply Hle.
  - by apply IH.
  - apply elem_of_cons in Hr as [->|Hr]; [done|].
    apply IH in Hr; [set_solver|done..].
Qed.

(** The request time and id of a record, the key of the deduplication. *)
Lemma kept_records_keys_NoDup t s l :
  non_decreasing l →
  NoDup ((λ r, (request_time r, task_id r)) <$> kept_records t s l).
Proof.
  revert t s. induction l as [|x l IH]; intros t s Hsort.
  { constructor. }
  pose proof Hsort as [Hsort' Hx]%non_decreasing_cons.
  assert (∀ t' s', le (request_time x) t' → task_id x ∈ s' →
    NoDup ((λ r, (request_time r, task_id r)) <$> x :: kept_records t' s' l))
    as Hcons.
  { intros t' s' Hle Hin. rewrite fmap_cons. constructor; [|by apply IH].
    intros (r & [= Htime Hid] & Hr)%list_elem_of_fmap.
    eapply (kept_not_later_fresh t' s' l r); [done..| |by rewrite <-Hid].
    by rewrite <-Htime. }
  destruct (boundary_pass_cases t s x l)
    as [(_ & -> & _)|[(_ & _ & -> & _)|(Hle & _ & -> & _)]].
  - apply Hcons; [apply dt_le_refl|by apply elem_of_singleton].
  - by apply IH.
  - apply Hcons; [done|set_solver].
Qed.

(** Records that are not later than the running time and whose ids are in
    the set are all dropped. *)
Lemma boundary_pass_all_seen t s l :
  Forall (λ r, le (request_time r) t ∧ task_id r ∈ s) l →
  boundary_pass t s l = ([], (t, s)).
Proof.
  induction 1 as [|x l [Hle Hin] _ IH]; [done|].
  rewrite boundary_pass_cons.
  apply gt_false in Hle. rewrite Hle. by rewrite decide_True.
Qed.


(** The pass over two lists in a row. *)
Lemma boundary_pass_app t s l1 l2 :
  boundary_pass t s (l1 ++ l2) =
    (kept_records t s l1
       ++ kept_records (final_time t s l1) (final_seen t s l1) l2,
     (final_time (final_time t s l1) (final_seen t s l1) l2,
      final_seen (final_time t s l1) (final_seen t s l1) l2)).
Proof.
  revert t s. induction l1 as [|x l1 IH]; intros t s.
  { unfold kept_records, final_time, final_seen. simpl.
    by destruct (boundary_pass t s l2) as [? [? ?]]. }
  unfold kept_records, final_time, final_seen in *.
  cbn [app boundary_pass].
  destruct (gt (request_time x) t); [|case_decide]; rewrite IH;
    by repeat match goal with
       | |- context [boundary_pass ?a ?b l1] =>
         destruct (boundary_pass a b l1) as [? [? ?]]
       end.
Qed.

(** The final time is the initial time or the time of a later record. *)
Lemma final_time_origin t s l :
  final_time t s l = t ∨
  ∃ r, r ∈ l ∧ request_time r = final_time t s l.
Proof.
  revert t s. induction l as [|x l IH]; intros t s; [by left|].
  destruct (boundary_pass_cases t s x l)
    as [(_ & _ & -> & _)|[(_ & _ & _ & -> & _)|(_ & _ & _ & -> & _)]].
  - right. destruct (IH (request_time x) {[task_id x]}) as [->|(r & ? & ?)].
    + exists x. split; [apply list_elem_of_here|done].
    + exists r. split; [by apply list_elem_of_further|done].
  - destruct (IH t s) as [?|(r & ? & ?)]; [by left|right].
    exists r. split; [by apply list_elem_of_further|done].
  - destruct (IH t ({[task_id x]} ∪ s)) as [?|(r & ? & ?)]; [by left|right].
    exists r. split; [by apply list_elem_of_further|done].
Qed.

(** A record strictly later than the initial time and than every record
    before it is kept. *)
Lemma newer_record_kept t s l1 r l2 :
  before t (request_time r) →
  Forall (λ r', before (request_time r') (request_time r)) l1 →
  r ∈ kept_records t s (l1 ++ r :: l2).
Proof.
  intros Ht Hl1. unfold kept_records at 1. rewrite boundary_pass_app.
  cbn [fst]. apply elem_of_app. right.
  assert (before (final_time t s l1) (request_time r)) as Hb.
  { destruct (final_time_origin t s l1) as [->|(r' & Hr' & <-)]; [done|].
    by apply (proj1 (Forall_forall _ _) Hl1). }
  destruct (boundary_pass_cases (final_time t s l1) (final_seen t s l1) r l2)
    as [(_ & -> & _)|[(Hle & _)|(Hle & _)]]; [apply list_elem_of_here|..];
    apply gt_false in Hle; apply gt_spec in Hb; congruence.
Qed.

(** Every id of the final set is an id of the initial set or of a kept
    record. *)
Lemma final_seen_origin t s l i :
  i ∈ final_seen t s l →
  i ∈ s ∨ ∃ r, r ∈ kept_records t s l ∧ task_id r = i.
Proof.
  revert t s. induction l as [|x l IH]; intros t s; [by left|].
  destruct (boundary_pass_cases t s x l)
    as [(_ & -> & _ & ->)|[(_ & _ & -> & _ & ->)|(_ & _ & -> & _ & ->)]];
    intros [Hi|(r & Hr & Hid)]%IH.
  - right. exists x. split; [apply list_elem_of_here|set_solver].
  - right. exists r. split; [by apply list_elem_of_further|done].
  - by left.
  - right. by exists r.
  - apply elem_of_union in Hi as [Hi|Hi]; [|by left].
    right. exists x. split; [apply list_elem_of_here|set_solver].
  - right. exists r. split; [by apply list_elem_of_further|done].
Qed.

End BoundaryPassFurther.

(** ** Deduplication *)

Section DeduplicationFurther.

Implicit Types (t : datetime) (s : gset logging_id) (r : logging)
  (l cands batch : list logging) (lr : last_run).

(** A run of the deduplication that did not raise, in terms of the pass. *)
Lemma remove_duplicated_Ok_pass l lr time_to_check batch ids :
  remove_duplicated_activity_logging l lr time_to_check = Ok (batch, ids) →
  l ≠ [] →
  ∃ t,
    strptime time_to_check DATE_FORMAT = Ok t ∧
    Forall normalized l ∧
    ids = elements (final_seen t (fetched_set lr) l) ∧
    batch ≡ₚ kept_records t (fetched_set lr) l ∧
    batch `sublist_of` l.
Proof.
  intros (ttc' & seen & Hloop & ->)%remove_duplicated_inv Hne.
  destruct (remove_duplicated_loop_inv _ _ _ _ _ _ _ Hloop)
    as (_ & _ & [t Ht]); [done|].
  destruct (remove_duplicated_loop_Ok _ _ _ _ _ _ _ Ht Hloop)
    as (Hnorm & -> & Hperm & Hsub).
  by exists t.
Qed.

(** What the deduplication returns when the pass is known. *)
Lemma remove_duplicated_of_pass l lr time_to_check t kept :
  strptime time_to_check DATE_FORMAT = Ok t →
  Forall normalized l →
  NoDup l ∨ kept = [] →
  kept_records t (fetched_set lr) l = kept →
  remove_duplicated_activity_logging l lr time_to_check
    = Ok (kept, elements (final_seen t (fetched_set lr) l)).
Proof.
  intros Ht Hnorm Hexact <-.
  destruct (remove_duplicated_loop_pass l l [] time_to_check t (fetched_set lr))
    as (out & ttc' & Hloop & _ & Hperm & _ & _ & Hout); [done..|].
  unfold remove_duplicated_activity_logging. rewrite Hloop. simpl.
  destruct Hexact as [Hnd|Hnil]; [by rewrite Hout|].
  simpl in Hperm. rewrite Hnil in Hperm |- *.
  by apply Permutation_nil_r in Hperm as ->.
Qed.

(** The last record of a batch is at the final time of the pass. *)
Lemma last_batch_final_time t s cands batch z :
  non_decreasing cands → not_before t cands →
  batch ≡ₚ kept_records t s cands → batch `sublist_of` cands →
  last batch = Some z →
  request_time z = final_time t s cands.
Proof.
  intros Hsort Hge Hperm Hsub Hlast.
  assert (z ∈ batch) as Hz by by apply last_elem.
  apply dt_le_antisym.
  { apply final_time_upper_bound. by eapply elem_of_sublist. }
  destruct (kept_reaches_final_time t s cands) as (r & Hr & <-); [done..| |].
  { intros Hnil. rewrite Hnil in Hperm.
    apply Permutation_nil_r in Hperm. by subst. }
  rewrite <-Hperm in Hr.
  eapply (non_decreasing_last batch); [|done..].
  by eapply non_decreasing_sublist.
Qed.

End DeduplicationFurther.

Section Further.

Implicit Types (t : datetime) (s : gset logging_id) (r : logging)
  (l cands batch : list logging) (lr : last_run).

(** X1. The deduplication loses no id: every record it was given is in the
    list it returns, or has the id of a record in that list, or an id of the
    last run. *)
Theorem dropped_only_for_seen_id l lr time_to_check batch ids r :
  remove_duplicated_activity_logging l lr time_to_check = Ok (batch, ids) →
  r ∈ l →
  task_id r ∈ fetched_set lr ∨ ∃ r', r' ∈ batch ∧ task_id r' = task_id r.
Proof.
  intros Hdedup Hr.
  destruct (remove_duplicated_Ok_pass _ _ _ _ _ Hdedup)
    as (t & _ & _ & _ & Hperm & _).
  { intros ->. by apply elem_of_nil in Hr. }
  destruct (boundary_pass_id_covered t (fetched_set lr) l r Hr)
    as [?|(r' & Hr' & Hid)]; [by left|right].
  exists r'. by rewrite Hperm.
Qed.

(** X2. When the records come in non-decreasing order of request time, no
    two records of the list the deduplication returns have both the same
    request time and the same id. *)
Theorem batch_keys_NoDup l lr time_to_check batch ids :
  remove_duplicated_activity_logging l lr time_to_check = Ok (batch, ids) →
  non_decreasing l →
  NoDup ((λ r, (request_time r, task_id r)) <$> batch).
Proof.
  intros Hdedup Hsort. destruct l as [|x l].
  { vm_compute in Hdedup. injection Hdedup as <- _. constructor. }
  destruct (remove_duplicated_Ok_pass _ _ _ _ _ Hdedup)
    as (t & _ & _ & _ & Hperm & _); [done|].
  rewrite Hperm. by apply kept_records_keys_NoDup.
Qed.

(** X3. Fetching again brings nothing back: after the records [cands], in
    non-decreasing order and not before the last fetch time, were
    deduplicated into a batch and a new last run, any of the same records
    that the vendor returns for the new last fetch time are all dropped, and
    the last run stays as it is. *)
Theorem refetch_returns_nothing `{Platform} cands lr first_fetch t batch lr1
    l2 t1 :
  strptime (from_date lr first_fetch) DATE_FORMAT = Ok t →
  non_decreasing cands → not_before t cands →
  set_last_run cands lr (from_date lr first_fetch) = Ok (batch, lr1) →
  strptime (from_date lr1 first_fetch) DATE_FORMAT = Ok t1 →
  l2 ⊆ cands → not_before t1 l2 →
  set_last_run l2 lr1 (from_date lr1 first_fetch) = Ok ([], lr1).
Proof.
  intros Ht Hsort Hge (ttc' & seen & Hloop & ->)%set_last_run_inv Ht1 Hsub Hge2.
  destruct (remove_duplicated_loop_Ok _ _ _ _ _ _ _ Ht Hloop)
    as (Hnorm & -> & Hperm & Hsubl).
  set (s := fetched_set lr) in *.
  set (lr1 := next_run lr batch (final_seen t s cands)) in *.
  assert (t1 = final_time t s cands ∧ fetched_set lr1 = final_seen t s cands)
    as [-> Hseen].
  { unfold lr1 in *. destruct (last batch) as [z|] eqn:Hlast.
    - split; [|by eapply fetched_set_next_run].
      rewrite (from_date_next_run _ _ _ z) in Ht1; [|done|].
      + injection Ht1 as <-. by eapply last_batch_final_time.
      + eapply (proj1 (Forall_forall _ _) Hnorm), elem_of_sublist; [|done].
        by apply last_elem.
    - apply last_None in Hlast. subst batch.
      apply Permutation_nil_l in Hperm.
      destruct (boundary_pass_no_advance t s cands) as [Hf Hs].
      { rewrite <-Hperm. by intros r ?%elem_of_nil. }
      unfold next_run in *. simpl in *. rewrite Ht in Ht1.
      injection Ht1 as <-. split; [done|].
      rewrite Hs, <-Hperm. fold s. set_solver. }
  assert (Forall (λ r, le (request_time r) (final_time t s cands) ∧
                       task_id r ∈ fetched_set lr1) l2) as Hall.
  { apply Forall_forall. intros r Hr.
    pose proof (final_time_upper_bound t s cands r (Hsub r Hr)) as Hle.
    split; [done|]. rewrite Hseen.
    apply final_seen_all_at_final_time; [by apply Hsub|].
    apply dt_le_antisym; [done|].
    by apply (proj1 (Forall_forall _ _) Hge2). }
  unfold set_last_run.
  erewrite (remove_duplicated_of_pass l2 lr1 _ _ []); [done|done| |by right|].
  - apply Forall_forall. intros r Hr.
    by apply (proj1 (Forall_forall _ _) Hnorm), Hsub.
  - unfold kept_records. by rewrite (boundary_pass_all_seen _ _ _ Hall).
Qed.


(** X5. A record strictly later than the last fetch time and than every
    record before it in the list is never dropped by the deduplication,
    whatever its id and whatever ids the last run holds. *)
Theorem strictly_newer_record_kept l1 r l2 lr time_to_check t batch ids :
  strptime time_to_check DATE_FORMAT = Ok t →
  before t (request_time r) →
  Forall (λ r', before (request_time r') (request_time r)) l1 →
  remove_duplicated_activity_logging (l1 ++ r :: l2) lr time_to_check
    = Ok (batch, ids) →
  r ∈ batch.
Proof.
  intros Ht Hlater Hl1 Hdedup.
  destruct (remove_duplicated_Ok_pass _ _ _ _ _ Hdedup)
    as (t' & Ht' & _ & _ & Hperm & _); [by destruct l1|].
  rewrite Ht in Ht'. injection Ht' as <-.
  rewrite Hperm. by apply newer_record_kept.
Qed.

(** X6. The ids the deduplication hands on for the next run have no
    repetition, and each of them is an id of the last run or the id of a
    record of the list it returns. *)
Theorem persisted_ids_come_from_records l lr time_to_check batch ids :
  remove_duplicated_activity_logging l lr time_to_check = Ok (batch, ids) →
  NoDup ids ∧
  ∀ i, i ∈ ids →
    i ∈ fetched_set lr ∨ ∃ r, r ∈ batch ∧ task_id r = i.
Proof.
  intros Hdedup. destruct l as [|x l].
  { apply remove_duplicated_inv in Hdedup as (ttc' & seen & Hloop & ->).
    injection Hloop as <- <- <-.
    split; [apply NoDup_elements|]. intros i Hi%elem_of_elements. by left. }
  destruct (remove_duplicated_Ok_pass _ _ _ _ _ Hdedup)
    as (t & _ & _ & -> & Hperm & _); [done|].
  split; [apply NoDup_elements|].
  intros i [?|(r & Hr & Hid)]%elem_of_elements%final_seen_origin; [by left|].
  right. exists r. by rewrite Hperm.
Qed.

End Further.

(** ** Normalisation *)

Section NormalisationFurther.

Context `{Platform}.

Implicit Types (r : logging) (l good rest : list logging).

(** X7. The normalisation touches the request time alone: it returns as
    many records, in the same order, each with a request time and with every
    other key as it was. *)
Theorem normalisation_changes_request_time_only l l' :
  remove_milliseconds_from_time_of_loggings l = Ok l' →
  Forall2 (λ r r',
    is_Some (r' !! "requestTime") ∧
    ∀ k, k ≠ "requestTime" → r' !! k = r !! k) l l'.
Proof.
  intros Hl%remove_milliseconds_inv.
  eapply Forall2_impl; [done|]. intros r r' (str & dt & _ & _ & ->).
  unfold truncated. split.
  - rewrite lookup_insert_eq. by eexists.
  - intros k Hk. by rewrite lookup_insert_ne.
Qed.


End NormalisationFurther.

(** ** Paging *)

Section PagingFurther.

Implicit Types (db page acc : list logging).

Lemma slice_loop db from_date to_date : ∀ c acc offset n,
  0 <= offset → acc = take (Z.to_nat offset) db →
  get_max_fetch_loop (Mock.slice db) c from_date to_date acc offset n
    = (Ok (take (Z.to_nat (offset + Z.max n 0)) db), ()).
Proof.
  apply (get_max_fetch_loop_ind (Mock.slice db) from_date to_date
    (λ c acc offset n out,
       0 <= offset → acc = take (Z.to_nat offset) db →
       out = (Ok (take (Z.to_nat (offset + Z.max n 0)) db), ()))).
  - intros [] acc offset n Hn Hoff ->. do 3 f_equal. lia.
  - intros c acc offset n e c' _ [=].
  - intros c acc offset n [] Hn [= Hpage] Hoff ->. do 2 f_equal.
    apply (f_equal length) in Hpage.
    rewrite length_take, length_drop in Hpage. simpl in Hpage.
    rewrite !take_ge; [done|lia..].
  - intros c acc offset n res [] out Hn Hres [= Hpage] IH Hoff ->.
    assert (Z.of_nat (length res) <= n) as Hlen.
    { rewrite <-Hpage, length_take. lia. }
    rewrite IH; [do 3 f_equal; lia|lia|].
    replace (Z.to_nat (offset + Z.of_nat (length res)))
      with (Z.to_nat offset + length res)%nat by lia.
    rewrite <-take_take_drop. f_equal.
    rewrite <-Hpage, length_take.
    destruct (Nat.min_spec (Z.to_nat (Z.min n 1000))
                (length (drop (Z.to_nat offset) db))) as [[_ ->]|[? ->]];
      [done|].
    by rewrite !take_ge by lia.
Qed.

(** X9. Against a vendor that holds a fixed list of records and answers
    every call with the slice asked for, the pager collects the first
    [max_fetch] records of the list, in order, or the whole list when it is
    shorter. *)
Theorem slice_vendor_prefix db max_fetch from_date to_date :
  get_max_fetch_activity_logging (Mock.slice db) () max_fetch from_date to_date
    = (Ok (take (Z.to_nat max_fetch) db), ()).
Proof.
  unfold get_max_fetch_activity_logging.
  rewrite slice_loop; [|done..]. do 3 f_equal. lia.
Qed.

(** X10. The pager does not trim what the client returns: when the first
    page already holds [max_fetch] records or more, that page is the result,
    whole, and no second call is made. *)
Theorem first_page_not_trimmed {client : Type}
  (request : client → string → string → Z → Z → result (list logging) * client)
  c c' max_fetch from_date to_date page :
  0 < max_fetch →
  request c from_date to_date 0 (Z.min max_fetch 1000) = (Ok page, c') →
  max_fetch <= Z.of_nat (length page) →
  get_max_fetch_activity_logging request c max_fetch from_date to_date
    = (Ok page, c').
Proof.
  intros Hmax Hreq Hlen. unfold get_max_fetch_activity_logging.
  rewrite get_max_fetch_loop_step, decide_True, Hreq by lia.
  destruct page as [|r res]; [simpl in Hlen; lia|].
  rewrite get_max_fetch_loop_step, decide_False; [done|lia].
Qed.

Lemma paging_calls_bounded max_fetch pages : ∀ accumulated,
  0 <= accumulated →
  Forall (λ call : Z * Z,
            0 <= call.1 ∧ 0 < call.2 <= 1000 ∧ call.1 + call.2 <= max_fetch)
    (paging max_fetch accumulated pages).1.
Proof.
  induction pages as [|page pages IH]; intros accumulated Hacc.
  { cbn [paging]. case_decide; constructor; [simpl; lia|constructor]. }
  destruct (decide (max_fetch - accumulated > 0)) as [Hpos|Hpos];
    [|rewrite paging_done by done; constructor].
  destruct page as [[|r res]|e].
  - cbn [paging]. rewrite decide_True by done.
    constructor; [simpl; lia|constructor].
  - rewrite paging_page by done. cbn [fst].
    constructor; [simpl; lia|]. apply IH. lia.
  - cbn [paging]. rewrite decide_True by done.
    constructor; [simpl; lia|constructor].
Qed.

(** X11. Whatever the client answers, every call of the pager asks at a
    non-negative offset for at least one and at most 1000 records, and never
    for records beyond [max_fetch]. *)
Theorem calls_within_bounds max_fetch pages from_date to_date :
  Forall (λ call : Z * Z,
            0 <= call.1 ∧ 0 < call.2 <= 1000 ∧ call.1 + call.2 <= max_fetch)
    (Mock.calls
       (get_max_fetch_activity_logging Mock.get_activity_logging_request
          (Mock.returning pages) max_fetch from_date to_date).2).
Proof.
  unfold get_max_fetch_activity_logging, Mock.returning.
  replace max_fetch with (max_fetch - 0) at 1 by lia.
  rewrite scripted_loop_paging. cbn [snd Mock.calls app].
  by apply paging_calls_bounded.
Qed.

Lemma paging_failed_page max_fetch (oks : list (list logging)) e rest :
  ∀ accumulated,
    Forall (λ page, page ≠ []) oks →
    accumulated + Z.of_nat (length (concat oks)) < max_fetch →
    (paging max_fetch accumulated ((Ok <$> oks) ++ Raise e :: rest)).2
      = Raise e ∧
    length (paging max_fetch accumulated ((Ok <$> oks) ++ Raise e :: rest)).1
      = S (length oks).
Proof.
  induction oks as [|page oks IH]; intros accumulated Hne Hlt.
  { simpl in Hlt. cbn [fmap list_fmap app paging].
    by rewrite decide_True by lia. }
  apply Forall_cons in Hne as [Hpage Hne].
  simpl in Hlt. rewrite length_app in Hlt.
  rewrite fmap_cons, <-app_comm_cons, paging_page by (done || lia).
  destruct (IH (accumulated + Z.of_nat (length page))) as [Hres Hcalls];
    [done|lia|].
  cbn [fst snd length]. by rewrite Hres, Hcalls.
Qed.

(** X12. A page request that fails makes the whole invocation fail with the
    same exception, the records of the pages fetched before it are given up,
    and no call follows the failed one. *)
Theorem failed_page_fails_the_fetch `{Platform} (oks : list (list logging))
    e rest max_fetch first_fetch lr now :
  Forall (λ page, page ≠ []) oks →
  Z.of_nat (length (concat oks)) < max_fetch →
  let run :=
    fetch_activity_logging Mock.get_activity_logging_request
      (Mock.returning ((Ok <$> oks) ++ Raise e :: rest))
      max_fetch first_fetch lr now in
  run.1 = Raise e ∧
  Mock.script run.2 = rest ∧
  length (Mock.calls run.2) = S (length oks).
Proof.
  intros Hne Hlt. cbv zeta.
  rewrite fetch_activity_logging_unfold.
  unfold get_max_fetch_activity_logging, Mock.returning.
  replace max_fetch with (max_fetch - 0) at 1 2 3 by lia.
  rewrite scripted_loop_paging.
  destruct (paging_failed_page max_fetch oks e rest 0 Hne) as [Hres Hcalls];
    [lia|].
  rewrite Hres, Hcalls. cbn [mbind result_bind fst snd Mock.script Mock.calls app].
  split_and!; [done| |done].
  replace (S (length oks)) with (length (Ok <$> oks) + 1)%nat
    by (rewrite length_fmap; lia).
  by rewrite <-drop_drop, drop_app_length.
Qed.

End PagingFurther.

(** ** The client *)

Section ClientFurther.

Import Client Integration.

Context `{BaseClient connection}.

Implicit Types (self : client connection) (w : connection).

(** X13. When the token request fails, the call of the client fails with
    the same exception, no page request is sent, and the headers of the
    client are as they were. *)
Theorem failed_token_request_stops_the_call self from_date to_date offset
    count limit e w :
  token_http_request (wire self) (access_token_request self) = (Raise e, w) →
  get_activity_logging_request self from_date to_date offset count limit
    = (Raise e, with_wire self w).
Proof.
  intros Htoken.
  unfold get_activity_logging_request, http_request, get_access_token.
  by rewrite Htoken.
Qed.

(** X14. Every call of the client asks for a token first and sends one
    page request, with the headers of the client and the token just
    received under [Authorization], or [Bearer None] when the answer held no
    token; the client keeps that header, and a page with no ["data"] counts
    as an empty list. *)
Theorem page_request_carries_the_token self from_date to_date offset count
    limit body w :
  token_http_request (wire self) (access_token_request self) = (Ok body, w) →
  let authorization :=
    "Bearer " +:+ format (body ≫= λ resp, resp !! "access_token") in
  let sent :=
    mkPageRequest "GET" "/activityLogging"
      (Some (mkQuery from_date to_date limit 1 offset count)) None
      (<["Authorization" := authorization]> (_headers self)) in
  get_activity_logging_request self from_date to_date offset count limit =
    (res ← (page_http_request w sent).1; Ok (default [] (res !! "data")),
     with_wire (set_header self "Authorization" authorization)
       (page_http_request w sent).2).
Proof.
  intros Htoken.
  unfold get_activity_logging_request, http_request, get_access_token.
  rewrite Htoken.
  assert (match body with
          | Some resp =>
            if decide (resp = ∅) then None else resp !! "access_token"
          | None => None
          end = body ≫= λ resp, resp !! "access_token") as ->.
  { destruct body as [resp|]; [|done]. simpl. case_decide; [|done].
    subst. by rewrite lookup_empty. }
  cbn [set_header with_wire _headers wire].
  by destruct (page_http_request w _) as [[res|e'] w'].
Qed.

(** X15. When the first page comes without ["data"], the invocation
    returns no record and the last run it was given, after one token request
    and one page request. *)
Theorem page_without_data_fetches_nothing `{Platform} self max_fetch
    first_fetch lr now body w res w' :
  max_fetch > 0 →
  token_http_request (wire self) (access_token_request self) = (Ok body, w) →
  page_http_request w
    (mkPageRequest "GET" "/activityLogging"
       (Some (mkQuery (from_date lr first_fetch) (to_date now)
                (Some (Z.min max_fetch 1000)) 1 (Some 0) false)) None
       (<["Authorization" :=
            "Bearer " +:+ format (body ≫= λ resp, resp !! "access_token")]>
          (_headers self))) = (Ok res, w') →
  res !! "data" = None →
  fetch_activity_logging request self max_fetch first_fetch lr now
    = (Ok ([], lr),
       with_wire
         (set_header self "Authorization"
            ("Bearer " +:+ format (body ≫= λ resp, resp !! "access_token")))
         w').
Proof.
  intros Hmax Htoken Hpage Hdata.
  rewrite fetch_activity_logging_unfold.
  unfold get_max_fetch_activity_logging.
  rewrite get_max_fetch_loop_step, decide_True by done.
  unfold request at 1.
  unfold get_activity_logging_request, http_request, get_access_token.
  rewrite Htoken.
  assert (match body with
          | Some resp =>
            if decide (resp = ∅) then None else resp !! "access_token"
          | None => None
          end = body ≫= λ resp, resp !! "access_token") as ->.
  { destruct body as [resp|]; [|done]. simpl. case_decide; [|done].
    subst. by rewrite lookup_empty. }
  cbn [set_header with_wire _headers wire].
  rewrite Hpage, Hdata. reflexivity.
Qed.

End ClientFurther.

(** ** The commands *)

Section CommandsFurther.

Import Client Integration.

Lemma prefix_spec needle haystack :
  String.prefix needle haystack = true ↔ ∃ post, haystack = needle +:+ post.
Proof.
  revert haystack. induction needle as [|a needle IH]; intros haystack.
  { split; [intros _; by exists haystack|by destruct haystack]. }
  destruct haystack as [|b haystack]; simpl.
  { split; [done|]. by intros [post ?]. }
  destruct (ascii_dec a b) as [->|Hne].
  - rewrite IH. split; intros [post Hp]; exists post;
      [by rewrite Hp|by injection Hp].
  - split; [done|]. intros [post Hp]. by injection Hp.
Qed.

(** [contains] is the test for a substring. *)
Lemma contains_spec needle haystack :
  contains needle haystack = true ↔
  ∃ pre post, haystack = pre +:+ needle +:+ post.
Proof.
  induction haystack as [|b haystack IH]; cbn [contains];
    rewrite orb_true_iff, prefix_spec.
  - split.
    + intros [[post ->]|?]; [by exists "", post|done].
    + intros ([|c pre] & post & Hp); [left; by exists post|done].
  - rewrite IH. split.
    + intros [[post ->]|(pre & post & ->)]; [by exists "", post|].
      by exists (String b pre), post.
    + intros ([|c pre] & post & Hp); [left; by exists post|right].
      injection Hp as -> ->. by exists pre, post.
Qed.

Context `{BaseClient connection}.

Implicit Types (self : client connection) (w : connection).

(** X16. [test_module] answers ["ok"] as soon as the token request returns,
    whatever it returns, be it a body with no token or no body at all. *)
Theorem test_module_passes_without_token self body w :
  token_http_request (wire self) (access_token_request self) = (Ok body, w) →
  test_module self = (Ok "ok", with_wire self w).
Proof.
  intros Htoken. unfold test_module, get_access_token. by rewrite Htoken.
Qed.

(** X17. When the token request raises, [test_module] turns the exception
    into the authorization message exactly when it is a [DemistoException]
    whose message has [Forbidden] or [Authorization] as a substring, and
    raises the exception again otherwise. *)
Theorem test_module_authorization_error self e w :
  token_http_request (wire self) (access_token_request self) = (Raise e, w) →
  let authorization := ∃ msg pre post,
    e = DemistoException msg ∧
    (msg = pre +:+ "Forbidden" +:+ post ∨
     msg = pre +:+ "Authorization" +:+ post) in
  (test_module self).2 = with_wire self w ∧
  (authorization →
   (test_module self).1
     = Ok "Authorization Error: make sure all parameters are correctly set") ∧
  (¬ authorization → (test_module self).1 = Raise e).
Proof.
  intros Htoken. cbv zeta. unfold test_module, get_access_token.
  rewrite Htoken.
  destruct e as [| |msg]; cbn [fst snd].
  1,2: split_and!; [done| |done]; by intros (? & ? & ? & [=] & _).
  destruct (contains "Forbidden" msg) eqn:HF;
    [|destruct (contains "Authorization" msg) eqn:HA]; cbn [orb fst snd].
  - split_and!; [done..|]. intros []. exists msg.
    apply contains_spec in HF as (pre & post & ->). eauto.
  - split_and!; [done..|]. intros []. exists msg.
    apply contains_spec in HA as (pre & post & ->). eauto.
  - split_and!; [done| |done].
    intros (msg' & pre & post & [= <-] & [->| ->]).
    + apply not_true_iff_false in HF. destruct HF.
      apply contains_spec. eauto.
    + apply not_true_iff_false in HA. destruct HA.
      apply contains_spec. eauto.
Qed.

(** X18. [add_time_to_loggings] gives every record a [_time], be it [None],
    in place of the [_time] the record may have had, and leaves every other
    key as it was; it returns as many records, in the same order. *)
Theorem add_time_sets_time_only `{Platform} `{CommonServerPython}
    (l : list logging) (events : list event) :
  add_time_to_loggings l = Ok events →
  Forall2 (λ (r : logging) (ev : event),
    is_Some (ev !! "_time") ∧
    ∀ k, k ≠ "_time" → ev !! k = Some <$> r !! k) l events.
Proof.
  revert events. induction l as [|r l IH]; intros events; simpl.
  { intros [= <-]. constructor. }
  destruct (arg_to_datetime _) as [create_time|]; [|done]. simpl.
  destruct (match create_time with Some _ => _ | None => _ end)
    as [_time|]; [|done]. simpl.
  destruct (add_time_to_loggings l) as [rest|]; [|done]. simpl.
  intros [= <-]. constructor; [|by apply IH]. split.
  - rewrite lookup_insert_eq. by eexists.
  - intros k Hk. by rewrite lookup_insert_ne, lookup_fmap.
Qed.

End CommandsFurther.

(** ** [main] *)

Section MainFurther.

Import Client Integration.

Context `{Platform} `{CommonServerPython}.
Context `{BaseClient connection} `{XSIAM connection}.

Implicit Types (w : connection) (lr : last_run).

Local Ltac branch :=
  repeat match goal with
  | |- context [decide ?P] => destruct (decide P) as [?|?]; try done
  end.

(** X19. The command [workday-get-activity-logging] with
    [should_push_events] never ends well: whatever the vendor and the host
    answer, the last call of [main] is [return_error], and the last run is
    not stored. *)
Theorem manual_push_always_ends_in_error (a : args) (p : params) lr now w :
  should_push_events a = true →
  ∃ calls e,
    (main "workday-get-activity-logging" a p lr now w).1
      = calls ++ [ReturnError "workday-get-activity-logging" e] ∧
    ∀ lr', SetLastRun lr' ∉ calls.
Proof.
  intros Hpush. unfold main, main_try.
  rewrite decide_False, decide_True, decide_True by set_solver.
  destruct (get_activity_logging_command _ _ _ _ _)
    as [[[loggings results]|e] c]; rewrite ?Hpush.
  2: { exists [], (Raised e). split; [done|]. set_solver. }
  destruct (add_time_to_loggings loggings) as [events|e].
  2: { eexists [_], _. split; [done|]. set_solver. }
  destruct (send_events_to_xsiam _ _ _ _) as [[[]|e] w'];
    (eexists [_; _], _; split; [done|]; set_solver).
Qed.

(** X20. When that command got its page and the events were accepted, the
    results are returned, the events are sent, and [main] then fails on
    [new_last_run], which is read but was never assigned. *)
Theorem manual_push_fails_after_sending (a : args) (p : params) lr now w
    loggings results c events w' :
  should_push_events a = true →
  get_activity_logging_command (new_client p w) (args_from_date a)
    (args_to_date a) (args_limit a) (args_offset a)
    = (Ok (loggings, results), c) →
  add_time_to_loggings loggings = Ok events →
  send_events_to_xsiam (wire c) events VENDOR PRODUCT = (Ok (), w') →
  main "workday-get-activity-logging" a p lr now w =
    ([ReturnResults (Results results);
      SendEvents events VENDOR PRODUCT;
      ReturnError "workday-get-activity-logging"
        (UnboundLocalError "new_last_run")], w').
Proof.
  intros Hpush Hcommand Htime Hsend. unfold main, main_try.
  rewrite decide_False, decide_True, decide_True by set_solver.
  by rewrite Hcommand, Hpush, Htime, Hsend.
Qed.

(** X21. A command that [main] does not know does nothing: no call to the
    host, not even an error, and nothing over the connection. *)
Theorem unknown_command_does_nothing command (a : args) (p : params) lr now w :
  command ∉ ["test-module"; "workday-get-activity-logging"; "fetch-events"] →
  main command a p lr now w = ([], w).
Proof.
  intros Hcommand. unfold main, main_try.
  rewrite !decide_False by set_solver. done.
Qed.

(** X22. The last run is stored in one case only: the command is
    [fetch-events], the fetch returned it and it is not empty, and the
    events were sent before; nothing else is reported in that run. *)
Theorem last_run_stored_only_after_send command (a : args) (p : params)
    lr now w lr' :
  SetLastRun lr' ∈ (main command a p lr now w).1 →
  command = "fetch-events" ∧ truthy lr' = true ∧
  ∃ batch c events w',
    fetch_activity_logging request (new_client p w)
      (or_else (params_max_fetch p) 1000) (params_first_fetch p) lr now
      = (Ok (batch, lr'), c) ∧
    add_time_to_loggings batch = Ok events ∧
    send_events_to_xsiam (wire c) events VENDOR PRODUCT = (Ok (), w') ∧
    main command a p lr now w =
      ([SendEvents events VENDOR PRODUCT; SetLastRun lr'], w').
Proof.
  unfold main, main_try.
  destruct (decide (command = "test-module")) as [->|_].
  { destruct (test_module _) as [[message|e] c]; cbn; set_solver. }
  destruct (decide (command ∈ _)) as [Hin|_]; [|cbn; set_solver].
  destruct (decide (command = "workday-get-activity-logging")) as [->|Hne].
  { destruct (get_activity_logging_command _ _ _ _ _)
      as [[[loggings results]|e] c]; [|cbn; set_solver].
    destruct (should_push_events a); [|cbn; set_solver].
    destruct (add_time_to_loggings loggings) as [events|e]; [|cbn; set_solver].
    destruct (send_events_to_xsiam _ _ _ _) as [[[]|e] w']; cbn; set_solver. }
  assert (command = "fetch-events") as -> by set_solver.
  destruct (fetch_activity_logging _ _ _ _ _ _) as [[[batch lr'']|e] c];
    [|cbn; set_solver].
  destruct (add_time_to_loggings batch) as [events|e] eqn:Htime;
    [|cbn; set_solver].
  destruct (send_events_to_xsiam _ _ _ _) as [[[]|e] w'] eqn:Hsend;
    [|cbn; set_solver].
  destruct (truthy lr'') eqn:Htruthy; [|cbn; set_solver].
  cbn. intros Hin'.
  assert (lr' = lr'') as -> by set_solver.
  split_and!; [done..|]. by exists batch, c, events, w'.
Qed.

(** X23. When the fetch of [fetch-events] raises, [main] reports that
    error and does nothing else: no event is sent and no last run stored. *)
Theorem failed_fetch_reports_the_error_only (a : args) (p : params) lr now w
    e c :
  fetch_activity_logging request (new_client p w)
    (or_else (params_max_fetch p) 1000) (params_first_fetch p) lr now
    = (Raise e, c) →
  main "fetch-events" a p lr now w
    = ([ReturnError "fetch-events" (Raised e)], wire c).
Proof.
  intros Hfetch. unfold main, main_try.
  rewrite decide_False, decide_True, decide_False by set_solver.
  by rewrite Hfetch.
Qed.

(** X24. A [max_fetch] that is not set or is [0] stands for 1000. *)
Theorem zero_max_fetch_means_1000 command (a : args) (p : params) lr now w :
  params_max_fetch p = None ∨ params_max_fetch p = Some 0 →
  main command a p lr now w =
    main command a
      (mkParams (params_base_url p) (params_token_url p)
         (credentials_identifier p) (credentials_password p)
         (token_password p) (insecure p) (params_proxy p) (Some 1000)
         (params_first_fetch p))
      lr now w.
Proof.
  intros Hmax. unfold main, new_client. cbn [params_max_fetch
    params_first_fetch params_base_url params_token_url credentials_identifier
    credentials_password token_password insecure params_proxy].
  by destruct Hmax as [-> | ->].
Qed.

(** X25. With a negative [max_fetch], [fetch-events] sends no request to
    the vendor; it sends an empty list of events, and stores again the last
    run it read unless that is empty. *)
Theorem negative_max_fetch_skips_the_vendor (a : args) (p : params) lr now w
    n w' :
  params_max_fetch p = Some n → n < 0 →
  send_events_to_xsiam w [] VENDOR PRODUCT = (Ok (), w') →
  main "fetch-events" a p lr now w =
    (SendEvents [] VENDOR PRODUCT
       :: (if truthy lr then [SetLastRun lr] else []), w').
Proof.
  intros Hmax Hneg Hsend. unfold main, main_try.
  rewrite decide_False, decide_True, decide_False by set_solver.
  rewrite fetch_activity_logging_unfold.
  unfold get_max_fetch_activity_logging.
  rewrite get_max_fetch_loop_step, Hmax. unfold or_else.
  rewrite (decide_False (P := n = 0)), decide_False by lia.
  cbn [mbind result_bind remove_milliseconds_from_time_of_loggings].
  change (set_last_run [] lr (from_date lr (params_first_fetch p)))
    with (Ok (@nil logging, lr)).
  cbn [add_time_to_loggings new_client wire]. rewrite Hsend.
  by destruct (truthy lr).
Qed.

End MainFurther.

(** * Instances of the claims on concrete runs *)

Import Examples.

#[local] Existing Instance glibc.

Local Ltac compute_le := apply (bool_decide_unpack _); vm_compute; exact I.
Local Ltac compute_Forall tac :=
  repeat (apply Forall_cons_2; [tac|]); apply Forall_nil_2.
Local Ltac compute_sorted :=
  repeat first
    [ apply Sorted_nil | apply HdRel_nil
    | apply Sorted_cons | apply HdRel_cons; compute_le ].

Lemma slice_within_limit (loggings : list logging) :
  pages_within_limit (Mock.slice loggings).
Proof.
  intros [] from_date to_date offset limit res [] Hpos [= <-].
  rewrite length_take. lia.
Qed.


Lemma no_duplicate_delivery_witness :
  request_time B = request_time D ∧ task_id B ≠ task_id D.
Proof.
  assert (request_time B = request_time D) as Htime by by_evaluation.
  split; [exact Htime|].
  apply (no_duplicate_delivery Mock.get_activity_logging_request
    (Mock.returning [Ok [A_wire; B_wire]])
    (Mock.mkClient [] [(0, 1000); (2, 998)]) 1000 first_fetch cursor now
    [A_wire; B_wire] [A; B] [B] cursor_AB
    (Mock.returning [Ok [B_wire; D_wire; C_wire]])
    (Mock.mkClient [] [(0, 1000); (3, 997)]) 1000 first_fetch now
    [B_wire; D_wire; C_wire] [B; D; C] [D; C] cursor_C midnight).
  - by_evaluation.
  - by_evaluation.
  - compute_sorted.
  - by_evaluation.
  - by_evaluation.
  - by_evaluation.
  - by_evaluation.
  - compute_sorted.
  - compute_Forall compute_le.
  - by_evaluation.
  - apply list_elem_of_here.
  - apply list_elem_of_here.
  - exact Htime.
Defined.

Lemma cursor_invariant_preserved_witness :
  ∃ t',
    strptime (from_date cursor_C first_fetch) DATE_FORMAT = Ok t' ∧
    le midnight t' ∧
    (∀ i, i ∈ fetched_set cursor_C →
       (∃ r, r ∈ [B; C] ∧ task_id r = i ∧ request_time r = t') ∨
       (t' = midnight ∧ i ∈ fetched_set cursor)) ∧
    (∀ history,
       cursor_invariant midnight (fetched_set cursor) history →
       cursor_invariant t' (fetched_set cursor_C) (history ++ [B; C])).
Proof.
  apply (cursor_invariant_preserved Mock.get_activity_logging_request
    (Mock.returning [Ok [A_wire; B_wire; C_wire]])
    (Mock.mkClient [] [(0, 1000); (3, 997)]) 1000 first_fetch cursor now
    [A_wire; B_wire; C_wire] [A; B; C] [B; C] cursor_C midnight).
  - by_evaluation.
  - by_evaluation.
  - by_evaluation.
  - compute_sorted.
  - compute_Forall compute_le.
  - by_evaluation.
Defined.

Lemma cap_respected_witness : Z.of_nat (length [B]) <= 2.
Proof.
  apply (cap_respected (Mock.slice [A_wire; B_wire; C_wire]) () () 2
           first_fetch cursor now [B] cursor_AB).
  - lia.
  - apply slice_within_limit.
  - by_evaluation.
Defined.

Lemma pagination_discipline_witness :
  get_max_fetch_activity_logging Mock.get_activity_logging_request
    (Mock.returning
       [Ok (replicate 1000 A_wire); Ok (replicate 500 B_wire);
        Ok (replicate 1000 C_wire)]) 1500 "from" "to" =
  (Ok (replicate 1000 A_wire ++ replicate 500 B_wire),
   Mock.mkClient [Ok (replicate 1000 C_wire)] [(0, 1000); (1000, 500)]) ∧
  length (replicate 1000 A_wire ++ replicate 500 B_wire) = 1500%nat.
Proof.
  apply (proj2 (proj2 (pagination_discipline "from" "to")));
    vm_compute; reflexivity.
Defined.

Lemma empty_fetch_keeps_last_run_witness :
  fetch_activity_logging Mock.get_activity_logging_request
    (Mock.returning [Ok []]) 1000 first_fetch cursor now
  = (Ok ([], cursor), Mock.mkClient [] [(0, 1000)]).
Proof.
  apply empty_fetch_keeps_last_run.
  - lia.
  - by_evaluation.
Defined.

Lemma normalisation_truncates_witness :
  ∃ l',
    remove_milliseconds_from_time_of_loggings
      [Mock.record "A" "2024-01-01T00:00:00.999000Z"] = Ok l' ∧
    Forall2 (λ r r', ∃ str dt,
      r !! "requestTime" = Some str ∧
      strptime str date_format_with_milliseconds = Ok dt ∧
      r' = truncated r dt ∧
      has_fraction (string_of_list_ascii (seconds_text dt)) = false ∧
      (normalize_century = true ∨ 1000 <= year dt →
       normalized r' ∧ request_time r' = replace_microsecond dt 0))
      [Mock.record "A" "2024-01-01T00:00:00.999000Z"] l'.
Proof.
  apply (proj1 normalisation_truncates).
  apply Forall_cons_2; [|apply Forall_nil_2].
  exists "2024-01-01T00:00:00.999000Z"%string,
         (mkDatetime 2024 1 1 0 0 0 999000).
  split; by_evaluation.
Defined.

Lemma nonpositive_max_fetch_fetches_nothing_witness :
  fetch_activity_logging Mock.get_activity_logging_request
    (Mock.returning [Ok [A_wire]]) 0 first_fetch cursor now
  = (Ok ([], cursor), Mock.returning [Ok [A_wire]]).
Proof. apply nonpositive_max_fetch_fetches_nothing. lia. Defined.

(** C9, as stated, fails: with [max_fetch = 0] the invocation does not
    report an error, it succeeds with no records. *)
Lemma nonpositive_max_fetch_not_rejected :
  ¬ raises
      (fetch_activity_logging Mock.get_activity_logging_request
         (Mock.returning [Ok [A_wire]]) 0 first_fetch cursor now).1.
Proof. vm_compute. intros []. Qed.

Lemma normalisation_needs_fraction_witness :
  has_fraction "2024-01-01T00:00:00Z" = false ∧
  strptime "2024-01-01T00:00:00Z" date_format_with_milliseconds
    = Raise ValueError ∧
  raises (remove_milliseconds_from_time_of_loggings [A]) ∧
  raises
    (fetch_activity_logging Mock.get_activity_logging_request
       (Mock.returning [Ok [A]]) 1000 first_fetch cursor now).1.
Proof.
  destruct (normalisation_needs_fraction [A] A "2024-01-01T00:00:00Z")
    as (_ & Hwhole & Hraises).
  - apply list_elem_of_here.
  - by_evaluation.
  - assert (has_fraction "2024-01-01T00:00:00Z" = false) as Hno.
    { apply Hwhole. exists midnight. by_evaluation. }
    destruct (Hraises Hno) as (Hparse & Hnorm & Hfetch).
    split_and!; [exact Hno|exact Hparse|exact Hnorm|].
    apply (Hfetch Mock.client Mock.get_activity_logging_request
             (Mock.returning [Ok [A]])
             (Mock.mkClient [] [(0, 1000); (1, 999)])).
    by_evaluation.
Defined.

(** * Instances of the further properties on concrete runs *)

Import Client Integration.

#[local] Existing Instance Wire.whole_seconds.

Lemma dropped_only_for_seen_id_witness :
  task_id A ∈ fetched_set cursor ∨
  ∃ r', r' ∈ [B; C] ∧ task_id r' = task_id A.
Proof.
  apply (dropped_only_for_seen_id [A; B; C] cursor "2024-01-01T00:00:00Z"
           [B; C] [Some "C"] A).
  - by_evaluation.
  - apply list_elem_of_here.
Defined.

Lemma batch_keys_NoDup_witness :
  NoDup ((λ r, (request_time r, task_id r)) <$> [B; C]).
Proof.
  apply (batch_keys_NoDup [A; B; C] cursor "2024-01-01T00:00:00Z"
           [B; C] [Some "C"]).
  - by_evaluation.
  - compute_sorted.
Defined.

Lemma refetch_returns_nothing_witness :
  set_last_run [C] cursor_C (from_date cursor_C first_fetch)
    = Ok ([], cursor_C).
Proof.
  apply (refetch_returns_nothing [A; B; C] cursor first_fetch midnight
           [B; C] cursor_C [C] (mkDatetime 2024 1 1 0 0 5 0)).
  - by_evaluation.
  - compute_sorted.
  - compute_Forall compute_le.
  - by_evaluation.
  - by_evaluation.
  - intros r ->%list_elem_of_singleton.
    apply list_elem_of_further, list_elem_of_further, list_elem_of_here.
  - compute_Forall compute_le.
Defined.


Lemma strictly_newer_record_kept_witness : C ∈ [B; C].
Proof.
  apply (strictly_newer_record_kept [A; B] C [] cursor "2024-01-01T00:00:00Z"
           midnight [B; C] [Some "C"]).
  - by_evaluation.
  - compute_le.
  - compute_Forall compute_le.
  - by_evaluation.
Defined.

Lemma persisted_ids_come_from_records_witness :
  NoDup [Some "C"] ∧
  ∀ i, i ∈ [Some "C"] →
    i ∈ fetched_set cursor ∨ ∃ r, r ∈ [B; C] ∧ task_id r = i.
Proof.
  apply (persisted_ids_come_from_records [A; B; C] cursor
           "2024-01-01T00:00:00Z" [B; C] [Some "C"]).
  by_evaluation.
Defined.

Lemma normalisation_changes_request_time_only_witness :
  Forall2 (λ r r' : logging,
    is_Some (r' !! "requestTime") ∧
    ∀ k, k ≠ "requestTime" → r' !! k = r !! k) [A_wire] [A].
Proof.
  apply normalisation_changes_request_time_only. by_evaluation.
Defined.


Lemma first_page_not_trimmed_witness :
  get_max_fetch_activity_logging Mock.get_activity_logging_request
    (Mock.returning [Ok [A_wire; B_wire; C_wire]]) 2 "from" "to"
  = (Ok [A_wire; B_wire; C_wire], Mock.mkClient [] [(0, 2)]).
Proof.
  apply first_page_not_trimmed.
  - lia.
  - by_evaluation.
  - simpl. lia.
Defined.

Lemma failed_page_fails_the_fetch_witness :
  (fetch_activity_logging Mock.get_activity_logging_request
     (Mock.returning
        ((Ok <$> [[A_wire]]) ++ Raise (DemistoException "timeout")
           :: [Ok [B_wire]]))
     1000 first_fetch cursor now).1 = Raise (DemistoException "timeout") ∧
  Mock.script
    (fetch_activity_logging Mock.get_activity_logging_request
       (Mock.returning
          ((Ok <$> [[A_wire]]) ++ Raise (DemistoException "timeout")
             :: [Ok [B_wire]]))
       1000 first_fetch cursor now).2 = [Ok [B_wire]] ∧
  length
    (Mock.calls
       (fetch_activity_logging Mock.get_activity_logging_request
          (Mock.returning
             ((Ok <$> [[A_wire]]) ++ Raise (DemistoException "timeout")
                :: [Ok [B_wire]]))
          1000 first_fetch cursor now).2) = 2%nat.
Proof.
  apply (failed_page_fails_the_fetch [[A_wire]] (DemistoException "timeout")
           [Ok [B_wire]] 1000 first_fetch cursor now).
  - compute_Forall done.
  - simpl. lia.
Defined.

Lemma failed_token_request_stops_the_call_witness :
  get_activity_logging_request
    (Runs.self (Runs.connection [Raise (DemistoException "timeout")] []))
    "from" "to" (Some 0) false (Some 1000)
  = (Raise (DemistoException "timeout"),
     with_wire
       (Runs.self (Runs.connection [Raise (DemistoException "timeout")] []))
       (Wire.mkConnection [] [] []
          [Wire.TokenRequest
             (access_token_request (Runs.self (Runs.connection [] [])))])).
Proof.
  apply failed_token_request_stops_the_call. by_evaluation.
Defined.

Lemma page_request_carries_the_token_witness :
  get_activity_logging_request
    (Runs.self (Runs.connection [Ok Runs.token] [Ok (Runs.page [A_wire])]))
    "from" "to" (Some 0) false (Some 1000)
  = (Ok [A_wire],
     with_wire
       (set_header (Runs.self (Runs.connection [] [])) "Authorization"
          "Bearer abc")
       (Wire.mkConnection [] [] []
          [Wire.TokenRequest
             (access_token_request (Runs.self (Runs.connection [] [])));
           Wire.PageRequest
             (mkPageRequest "GET" "/activityLogging"
                (Some (mkQuery "from" "to" (Some 1000) 1 (Some 0) false)) None
                {[ "Accept" := "application/json";
                   "Content-Type" := "application/json";
                   "Authorization" := "Bearer abc" ]})])).
Proof.
  rewrite (page_request_carries_the_token
             (Runs.self
                (Runs.connection [Ok Runs.token] [Ok (Runs.page [A_wire])]))
             "from" "to" (Some 0) false (Some 1000) Runs.token
             (Wire.mkConnection [] [Ok (Runs.page [A_wire])] []
                [Wire.TokenRequest
                   (access_token_request
                      (Runs.self (Runs.connection [] [])))])).
  - by_evaluation.
  - by_evaluation.
Defined.

Lemma page_without_data_fetches_nothing_witness :
  (fetch_activity_logging request
     (Runs.self (Runs.connection [Ok None] [Ok ∅]))
     1000 first_fetch cursor now).1 = Ok ([], cursor).
Proof.
  eassert (token_http_request
             (wire (Runs.self (Runs.connection [Ok None] [Ok ∅])))
             (access_token_request
                (Runs.self (Runs.connection [Ok None] [Ok ∅])))
           = (Ok None, _)) as Htoken by (vm_compute; reflexivity).
  eassert (page_http_request _ _ = (Ok ∅, _)) as Hpage;
    [|rewrite (page_without_data_fetches_nothing _ 1000 first_fetch cursor
                 now _ _ _ _ ltac:(lia) Htoken Hpage (lookup_empty _));
      reflexivity].
  vm_compute. reflexivity.
Defined.

Lemma test_module_passes_without_token_witness :
  test_module (Runs.self (Runs.connection [Ok None] []))
  = (Ok "ok",
     with_wire (Runs.self (Runs.connection [Ok None] []))
       (Wire.mkConnection [] [] []
          [Wire.TokenRequest
             (access_token_request (Runs.self (Runs.connection [] [])))])).
Proof.
  apply (test_module_passes_without_token _ None). by_evaluation.
Defined.

Lemma test_module_authorization_error_witness :
  (test_module
     (Runs.self (Runs.connection [Raise (DemistoException "403 Forbidden")] []))).1
    = Ok "Authorization Error: make sure all parameters are correctly set" ∧
  (test_module
     (Runs.self (Runs.connection [Raise (DemistoException "timeout")] []))).1
    = Raise (DemistoException "timeout").
Proof.
  split.
  - eapply (test_module_authorization_error _ (DemistoException "403 Forbidden")).
    + vm_compute. reflexivity.
    + exists "403 Forbidden"%string, "403 "%string, ""%string.
      split; [reflexivity|]. left. reflexivity.
  - eapply (test_module_authorization_error _ (DemistoException "timeout")).
    + vm_compute. reflexivity.
    + intros (msg & pre & post & [= <-] & [Hmsg|Hmsg]).
      * assert (contains "Forbidden" "timeout" = true) as Hc
          by (apply contains_spec; eauto).
        vm_compute in Hc. discriminate Hc.
      * assert (contains "Authorization" "timeout" = true) as Hc
          by (apply contains_spec; eauto).
        vm_compute in Hc. discriminate Hc.
Defined.

Lemma add_time_sets_time_only_witness :
  Forall2 (λ (r : logging) (ev : event),
    is_Some (ev !! "_time") ∧
    ∀ k, k ≠ "_time" → ev !! k = Some <$> r !! k)
    [A] [<["_time" := Some "2024-01-01T00:00:00Z"]> (Some <$> A)].
Proof.
  apply add_time_sets_time_only. by_evaluation.
Defined.

Lemma manual_push_always_ends_in_error_witness :
  ∃ calls e,
    (main "workday-get-activity-logging" (Runs.arguments true)
       (Runs.parameters (Some 1000)) cursor now (Runs.connection [] [])).1
      = calls ++ [ReturnError "workday-get-activity-logging" e] ∧
    ∀ lr', SetLastRun lr' ∉ calls.
Proof.
  apply manual_push_always_ends_in_error. reflexivity.
Defined.

Lemma manual_push_fails_after_sending_witness :
  ∃ w',
    main "workday-get-activity-logging" (Runs.arguments true)
      (Runs.parameters (Some 1000)) cursor now
      (Runs.connection [Ok Runs.token] [Ok (Runs.page [A_wire])]) =
    ([ReturnResults (Results (mkCommandResults "Activity Logging List:"));
      SendEvents [<["_time" := Some "2024-01-01T00:00:00Z"]> (Some <$> A)]
        VENDOR PRODUCT;
      ReturnError "workday-get-activity-logging"
        (UnboundLocalError "new_last_run")], w').
Proof.
  eexists.
  eapply (manual_push_fails_after_sending (Runs.arguments true)
            (Runs.parameters (Some 1000)) cursor now
            (Runs.connection [Ok Runs.token] [Ok (Runs.page [A_wire])]) [A]).
  - reflexivity.
  - vm_compute. reflexivity.
  - by_evaluation.
  - vm_compute. reflexivity.
Defined.

Lemma unknown_command_does_nothing_witness :
  main "workday-delete-activity-logging" (Runs.arguments true)
    (Runs.parameters (Some 1000)) cursor now (Runs.connection [] [])
  = ([], Runs.connection [] []).
Proof.
  apply unknown_command_does_nothing. compute_le.
Defined.

Lemma last_run_stored_only_after_send_witness :
  "fetch-events" = "fetch-events" ∧ truthy cursor_C = true ∧
  ∃ batch c events w',
    fetch_activity_logging request
      (new_client (Runs.parameters (Some 1000))
         (Runs.connection [Ok Runs.token]
            [Ok (Runs.page [A_wire; B_wire; C_wire])]))
      (or_else (params_max_fetch (Runs.parameters (Some 1000))) 1000)
      (params_first_fetch (Runs.parameters (Some 1000))) cursor now
      = (Ok (batch, cursor_C), c) ∧
    add_time_to_loggings batch = Ok events ∧
    send_events_to_xsiam (wire c) events VENDOR PRODUCT = (Ok (), w') ∧
    main "fetch-events" (Runs.arguments true) (Runs.parameters (Some 1000))
      cursor now
      (Runs.connection [Ok Runs.token]
         [Ok (Runs.page [A_wire; B_wire; C_wire])]) =
      ([SendEvents events VENDOR PRODUCT; SetLastRun cursor_C], w').
Proof.
  apply last_run_stored_only_after_send.
  eassert ((main "fetch-events" (Runs.arguments true)
              (Runs.parameters (Some 1000)) cursor now
              (Runs.connection [Ok Runs.token]
                 [Ok (Runs.page [A_wire; B_wire; C_wire])])).1
           = [_; SetLastRun cursor_C]) as -> by (vm_compute; reflexivity).
  apply list_elem_of_further, list_elem_of_here.
Defined.

Lemma failed_fetch_reports_the_error_only_witness :
  ∃ w',
    main "fetch-events" (Runs.arguments true) (Runs.parameters (Some 1000))
      cursor now (Runs.connection [Raise (DemistoException "timeout")] [])
    = ([ReturnError "fetch-events" (Raised (DemistoException "timeout"))], w').
Proof.
  eexists. eapply failed_fetch_reports_the_error_only.
  vm_compute. reflexivity.
Defined.

Lemma zero_max_fetch_means_1000_witness :
  main "fetch-events" (Runs.arguments true) (Runs.parameters (Some 0))
    cursor now (Runs.connection [] [])
  = main "fetch-events" (Runs.arguments true) (Runs.parameters (Some 1000))
      cursor now (Runs.connection [] []).
Proof.
  apply (zero_max_fetch_means_1000 "fetch-events" (Runs.arguments true)
           (Runs.parameters (Some 0))).
  right. reflexivity.
Defined.

Lemma negative_max_fetch_skips_the_vendor_witness :
  main "fetch-events" (Runs.arguments true) (Runs.parameters (Some (-5)))
    cursor now (Runs.connection [] [])
  = (SendEvents [] VENDOR PRODUCT
       :: (if truthy cursor then [SetLastRun cursor] else []),
     Wire.mkConnection [] [] [] [Wire.Events []]).
Proof.
  apply (negative_max_fetch_skips_the_vendor (Runs.arguments true)
           (Runs.parameters (Some (-5))) cursor now (Runs.connection [] [])
           (-5)).
  - reflexivity.
  - lia.
  - by_evaluation.
Defined.
